(** * Scenario pipeline of app.py: splitting, validation, happy-path
      selection and feature-file rendering.

    A Python [str] is modelled as a list of characters whose code points lie
    in U+0000..U+00FF ([list ascii]).  On that range the built-in methods
    used by the program ([splitlines], [strip], [lower], [startswith],
    [join], [in]) are modelled exactly as CPython defines them. *)

From Stdlib Require Import List Bool NArith Ascii String DecimalString.
Import ListNotations.

Set Implicit Arguments.

(** ** Python strings *)

Definition str := list ascii.

(** Literal of the source program. *)
Definition py (s : string) : str := list_ascii_of_string s.

Definition chr (n : N) : ascii := ascii_of_N n.
Definition ord (c : ascii) : N := N_of_ascii c.

Definition LF : ascii := chr 10.
Definition CR : ascii := chr 13.
Definition SP : ascii := chr 32.

(** The string "\n". *)
Definition nl : str := [LF].

(** [c.isspace()] for a code point below 256: TAB LF VT FF CR, FS GS RS US,
    SPACE, NEL (0x85) and NBSP (0xA0). *)
Definition is_space (c : ascii) : bool :=
  let n := ord c in
  ((9 <=? n) && (n <=? 13) || (28 <=? n) && (n <=? 32)
   || (n =? 133) || (n =? 160))%N.

(** Line boundaries of [str.splitlines] below 256: LF VT FF CR, FS GS RS and
    NEL (0x85). *)
Definition is_linebreak (c : ascii) : bool :=
  let n := ord c in
  ((10 <=? n) && (n <=? 13) || (28 <=? n) && (n <=? 30) || (n =? 133))%N.

(** [c.lower()] below 256: A-Z and the Latin-1 capitals 0xC0-0xDE (the
    multiplication sign 0xD7 excepted) move up by 32. *)
Definition lower_char (c : ascii) : ascii :=
  let n := ord c in
  if ((65 <=? n) && (n <=? 90)
      || (192 <=? n) && (n <=? 222) && negb (n =? 215))%N
  then chr (n + 32) else c.

Definition lower (s : str) : str := map lower_char s.

Fixpoint dropwhile (A : Type) (p : A -> bool) (l : list A) : list A :=
  match l with
  | [] => []
  | x :: r => if p x then dropwhile p r else l
  end.

Definition lstrip (s : str) : str := dropwhile is_space s.
Definition rstrip (s : str) : str := rev (dropwhile is_space (rev s)).

(** [s.strip()]: whitespace removed at both ends. *)
Definition strip (s : str) : str := rstrip (lstrip s).

(** [s.startswith(p)]. *)
Fixpoint startswith (s p : str) {struct p} : bool :=
  match p, s with
  | [], _ => true
  | _ :: _, [] => false
  | a :: p', b :: s' => Ascii.eqb a b && startswith s' p'
  end.

(** [k in s] on strings: [k] occurs in [s] as a contiguous substring. *)
Fixpoint contains (k s : str) : bool :=
  startswith s k ||
  match s with
  | [] => false
  | _ :: s' => contains k s'
  end.

(** [sep.join(l)]. *)
Fixpoint join (sep : str) (l : list str) : str :=
  match l with
  | [] => []
  | x :: r =>
      match r with
      | [] => x
      | _ :: _ => x ++ sep ++ join sep r
      end
  end.

(** After a line boundary [c], the rest of the text: CR followed by LF is
    one boundary. *)
Definition after_break (c : ascii) (rest : str) : str :=
  match rest with
  | d :: rest' => if Ascii.eqb c CR && Ascii.eqb d LF then rest' else rest
  | [] => rest
  end.

(** [s.splitlines()]: the lines of [s] without their line boundaries; a
    final line boundary opens no further line. *)
Fixpoint splitlines (s : str) : list str :=
  match s with
  | [] => []
  | c :: rest =>
      if is_linebreak c then [] :: splitlines (after_break c rest)
      else
        match splitlines rest with
        | [] => [[c]]
        | l :: ls => (c :: l) :: ls
        end
  end.

(** ** The program *)

Definition HAPPY_KEYWORDS : list str :=
  [py "login"; py "submit"; py "approve"].

(** The line test of the splitter: [line.strip().startswith("Scenario:")]. *)
Definition is_marker (line : str) : bool :=
  startswith (strip line) (py "Scenario:").

(** ["\n".join(current).strip()]. *)
Definition close_block (current : list str) : str :=
  strip (join nl current).

(** One iteration of the loop of [split_scenarios] on the state
    [(blocks, current)]. *)
Definition split_step (st : list str * list str) (line : str)
  : list str * list str :=
  let '(blocks, current) := st in
  let '(blocks1, current1) :=
    if is_marker line then
      match current with
      | [] => (blocks, current)
      | _ :: _ => (blocks ++ [close_block current], [])
      end
    else (blocks, current) in
  (blocks1, current1 ++ [line]).

Definition split_scenarios (gherkin_text : str) : list str :=
  let '(blocks, current) :=
    fold_left split_step (splitlines gherkin_text) ([], []) in
  match current with
  | [] => blocks
  | _ :: _ => blocks ++ [close_block current]
  end.

Definition is_valid_scenario (text : str) : bool :=
  let needed := [py "Given"; py "When"; py "Then"] in
  forallb (fun k => contains k text) needed.

Definition is_happy_path (text : str) : bool :=
  let lower := lower text in
  contains (py "happy path") lower
  || (contains (py "success") lower && contains (py "valid") lower).

Definition contains_known_actions (text : str) : bool :=
  let lower := lower text in
  existsb (fun k => contains k lower) HAPPY_KEYWORDS.

(** The dictionary under the key "summary": its keys "total", "valid",
    "happy" and "has_required_actions". *)
Record Summary := mkSummary {
  total : nat;
  valid_count : nat;
  happy_count : nat;
  has_required_actions : bool
}.

(** The dictionary returned by [validate_and_select_happy]: its keys "all",
    "valid", "happy" and "summary". *)
Record PipelineResult := mkResult {
  r_all : list str;
  r_valid : list str;
  r_happy : list str;
  r_summary : Summary
}.

(** The condition of the list comprehension that builds [happy]. *)
Definition happy_condition (s : str) : bool :=
  contains_known_actions s && is_happy_path s.

Definition validate_and_select_happy (gherkin_text : str) : PipelineResult :=
  let all_scenarios := split_scenarios gherkin_text in
  let valid := filter is_valid_scenario all_scenarios in
  let happy := filter happy_condition valid in
  {| r_all := all_scenarios;
     r_valid := valid;
     r_happy := happy;
     r_summary :=
       {| total := List.length all_scenarios;
          valid_count := List.length valid;
          happy_count := List.length happy;
          has_required_actions := forallb contains_known_actions happy |} |}.

(** The four header lines of the downloadable feature file. *)
Definition header_lines : list str :=
  [py "Feature: LLM generated login flows";
   py "  As a user of the sample web app";
   py "  I want to login and access the dashboard";
   py "  So that I can use the application features"].

Definition feature_header : str :=
  py "Feature: LLM generated login flows" ++ nl ++
  py "  As a user of the sample web app" ++ nl ++
  py "  I want to login and access the dashboard" ++ nl ++
  py "  So that I can use the application features" ++ nl ++ nl.

(** ["  " + line if line.strip() else ""]. *)
Definition indent_line (line : str) : str :=
  match strip line with
  | [] => []
  | _ :: _ => py "  " ++ line
  end.

(** One iteration of the loop that accumulates [feature_body]. *)
Definition body_step (feature_body : str) (s : str) : str :=
  let lines := map indent_line (splitlines s) in
  feature_body ++ (join nl lines ++ nl ++ nl).

Definition feature_body (happy : list str) : str :=
  fold_left body_step happy [].

Definition feature_content (happy : list str) : str :=
  feature_header ++ feature_body happy.

(** ** Specification-level notions *)

(** [k] occurs in [s] as a contiguous substring. *)
Definition substring (k s : str) : Prop :=
  exists pre post, s = pre ++ k ++ post.

(** A blank line: nothing but whitespace ([line.strip()] is empty). *)
Definition blank (line : str) : bool := forallb is_space line.

(** A line holds no line boundary. *)
Definition no_break (line : str) : bool :=
  forallb (fun c => negb (is_linebreak c)) line.

(** Every line boundary of the text is a plain "\n". *)
Definition lf_only (text : str) : bool :=
  forallb (fun c => negb (is_linebreak c) || Ascii.eqb c LF) text.

(** The runs of lines the splitter is specified to form: a run ends where the
    next line is a marker line; every other line stays with the run of the
    lines after it. *)
Fixpoint group_lines (ls : list str) : list (list str) :=
  match ls with
  | [] => []
  | l :: rest =>
      match rest with
      | [] => [[l]]
      | l2 :: _ =>
          if is_marker l2 then [l] :: group_lines rest
          else match group_lines rest with
               | g :: gs => (l :: g) :: gs
               | [] => [[l]]
               end
      end
  end.

(** No line of the run after its first is a marker line. *)
Definition open_run (current : list str) : bool :=
  forallb (fun l => negb (is_marker l)) (tl current).

(** The end of [split_scenarios]: the open block, if any, is emitted. *)
Definition emit_open (st : list str * list str) : list str :=
  let '(blocks, current) := st in
  match current with
  | [] => blocks
  | _ :: _ => blocks ++ [close_block current]
  end.

(** Leading and trailing blank lines removed, nothing else touched. *)
Definition drop_blank_ends (ls : list str) : list str :=
  rev (dropwhile blank (rev (dropwhile blank ls))).

Definition lstrip_first (ls : list str) : list str :=
  match ls with
  | [] => []
  | l :: r => lstrip l :: r
  end.

Definition rstrip_head (ls : list str) : list str :=
  match ls with
  | [] => []
  | l :: r => rstrip l :: r
  end.

Definition rstrip_last (ls : list str) : list str :=
  rev (rstrip_head (rev ls)).

(** What stripping the joined run leaves of its lines: blank lines at both
    ends go, the first remaining line loses its leading whitespace and the
    last remaining line its trailing whitespace. *)
Definition trim_run (ls : list str) : list str :=
  rstrip_last (lstrip_first (drop_blank_ends ls)).

(** The same, as a relation between a run and the lines kept of it. *)
Inductive trimmed : list str -> list str -> Prop :=
| trimmed_blank (run : list str) :
    forallb blank run = true -> trimmed run []
| trimmed_one (pre post : list str) (l : str) :
    forallb blank pre = true -> forallb blank post = true ->
    blank l = false ->
    trimmed (pre ++ l :: post) [strip l]
| trimmed_many (pre mid post : list str) (first last : str) :
    forallb blank pre = true -> forallb blank post = true ->
    blank first = false -> blank last = false ->
    trimmed (pre ++ first :: mid ++ last :: post)
            (lstrip first :: mid ++ [rstrip last]).

(** The rendered lines of one block of the feature file. *)
Definition render_lines (s : str) : list str :=
  map indent_line (splitlines s) ++ [[]].

(** ** The backend call and the page *)

Definition SYSTEM_PROMPT : str :=
  join nl
    [py "You generate BDD test scenarios in Gherkin.";
     py "- Use: Feature / Scenario / Given-When-Then";
     py "- Include at least one positive and one negative scenario.";
     py "- Domain: generic sample web app with login and dashboard.";
     py "Return ONLY valid Gherkin text, no explanations."].

(** The f-string of [call_llm]. *)
Definition prompt_of (requirements_text : str) : str :=
  SYSTEM_PROMPT ++ nl ++ nl ++ py "User requirements:" ++ nl
  ++ requirements_text.

(** [call_llm], over the backend it calls: [generate_content model contents]
    is the text of the response, or [None] when the client raises. *)
Definition call_llm (generate_content : str -> str -> option str)
    (requirements_text : str) : option str :=
  let prompt := prompt_of requirements_text in
  match generate_content (py "gemini-2.5-flash") prompt with
  | Some text => Some (strip text)
  | None => None
  end.

(** What the page shows.  Captions are kept as the text of the source
    literals; listings (all of language "gherkin") and the download carry
    program strings. *)
Inductive widget : Type :=
| w_error (msg : string)
| w_subheader (caption : string)
| w_code (body : str)
| w_json (summary : Summary)
| w_markdown (body : string)
| w_warning (msg : string)
| w_download (label : string) (data : str) (file_name mime : string).

(** [enumerate(l, start)]. *)
Fixpoint enumerate (A : Type) (start : nat) (l : list A) : list (nat * A) :=
  match l with
  | [] => []
  | x :: r => (start, x) :: enumerate (S start) r
  end.

(** [f"{i}"] for a natural number. *)
Definition decimal (i : nat) : string :=
  NilEmpty.string_of_uint (Nat.to_uint i).

(** The headings [f"**Scenario {i}**"] and [f"**Happy path {i}**"]. *)
Definition heading (title : string) (i : nat) : string :=
  String.append "**"
    (String.append title (String.append " " (String.append (decimal i) "**"))).

(** The numbered listings of one result list: a heading and a listing per
    block, counted from 1. *)
Definition numbered (title : string) (blocks : list str) : list widget :=
  flat_map (fun '(i, s) => [w_markdown (heading title i); w_code s])
           (enumerate 1 blocks).

(** What the handler shows once the backend has answered. *)
Definition result_page (gherkin_text : str) : list widget :=
  let result := validate_and_select_happy gherkin_text in
  [w_subheader "Raw Gherkin from Gemini";
   w_code gherkin_text;
   w_subheader "Validation summary";
   w_json (r_summary result);
   w_subheader "All scenarios"]
  ++ numbered "Scenario" (r_all result)
  ++ [w_subheader "Selected happy‑path scenarios for automation"]
  ++ match r_happy result with
     | [] => [w_warning
                "No happy‑path scenarios matched the selection rules."]
     | _ :: _ => numbered "Happy path" (r_happy result)
     end
  ++ [w_download "Download happy‑path feature file"
        (feature_content (r_happy result))
        "login_happy.feature" "text/plain"].

(** The body of the button handler: [None] when the backend call raises. *)
Definition on_generate (generate_content : str -> str -> option str)
    (requirements_text : str) : option (list widget) :=
  match strip requirements_text with
  | [] => Some [w_error "Please enter some requirements."]
  | _ :: _ =>
      match call_llm generate_content requirements_text with
      | None => None
      | Some gherkin_text => Some (result_page gherkin_text)
      end
  end.

(** The listings of a page, in order. *)
Definition listings (page : list widget) : list str :=
  flat_map (fun w => match w with w_code body => [body] | _ => [] end) page.

(** The headings of a page, in order. *)
Definition markdowns (page : list widget) : list string :=
  flat_map (fun w => match w with w_markdown body => [body] | _ => [] end)
           page.

(** The warnings of a page, in order. *)
Definition warnings (page : list widget) : list string :=
  flat_map (fun w => match w with w_warning msg => [msg] | _ => [] end) page.

(** The line without an indentation of two characters. *)
Definition unindent (line : str) : str := skipn 2 line.

(** ** Example inputs *)

(** The eight-line example of the specification. *)
Definition login_example : str :=
  join nl [py "Feature: Login";
           py "Scenario: Successful login";
           py "Given a valid user";
           py "When they submit valid credentials";
           py "Then they reach the dashboard and see a success message";
           py "Scenario: Invalid login";
           py "Given a user";
           py "When they submit"].

(** A negative scenario without a Given step. *)
Definition negative_no_given : str :=
  py "When login with invalid credentials Then no success message".

(** The same negative scenario with its Given step. *)
Definition negative_with_given : str :=
  py "Given a user When login with invalid credentials Then no success message".

(** An indented scenario, as a code listing usually has it. *)
Definition indented_example : str :=
  py "  Scenario: A" ++ nl ++ py "    Given x".

(** Two lines separated by CR LF. *)
Definition crlf_example : str := py "a" ++ [CR; LF] ++ py "b".

Definition two_blocks : list str := [py "Scenario: A"; py "Scenario: B"].

(** ** Characters *)

Lemma linebreak_is_space (c : ascii) :
  is_linebreak c = true -> is_space c = true.
Proof.
  destruct c as [[] [] [] [] [] [] [] []]; vm_compute; congruence.
Qed.




(** ** [dropwhile] *)

Section Dropwhile.
Variable A : Type.
Variable p : A -> bool.

Lemma dropwhile_all (a b : list A) :
  forallb p a = true -> dropwhile p (a ++ b) = dropwhile p b.
Proof.
  induction a as [|x a IH]; simpl; [reflexivity|].
  intros H. apply andb_true_iff in H as [Hx Ha].
  rewrite Hx. now apply IH.
Qed.

Lemma dropwhile_nil (a : list A) :
  dropwhile p a = [] <-> forallb p a = true.
Proof.
  induction a as [|x a IH]; simpl; [tauto|].
  destruct (p x); simpl; [exact IH|].
  split; discriminate.
Qed.

Lemma dropwhile_stop (a b : list A) :
  forallb p a = false -> dropwhile p (a ++ b) = dropwhile p a ++ b.
Proof.
  induction a as [|x a IH]; simpl; [discriminate|].
  destruct (p x); simpl; [exact IH|reflexivity].
Qed.

Lemma dropwhile_head (a : list A) (x : A) (r : list A) :
  dropwhile p a = x :: r -> p x = false.
Proof.
  induction a as [|y a IH]; simpl; [discriminate|].
  destruct (p y) eqn:E; [exact IH|].
  intros H. injection H as -> _. exact E.
Qed.

Lemma dropwhile_split (a : list A) :
  exists pre, a = pre ++ dropwhile p a /\ forallb p pre = true.
Proof.
  induction a as [|x a [pre [E H]]]; simpl.
  - exists []. split; reflexivity.
  - destruct (p x) eqn:Px.
    + exists (x :: pre). simpl. rewrite Px, H. split; [now f_equal|reflexivity].
    + exists []. split; reflexivity.
Qed.


Lemma forallb_dropwhile (q : A -> bool) (a : list A) :
  forallb q a = true -> forallb q (dropwhile p a) = true.
Proof.
  induction a as [|x a IH]; simpl; [reflexivity|].
  intros H. destruct (p x); [|exact H].
  apply andb_true_iff in H as [_ H]. now apply IH.
Qed.

Lemma forallb_rev (a : list A) : forallb p (rev a) = forallb p a.
Proof.
  induction a as [|x a IH]; simpl; [reflexivity|].
  rewrite forallb_app, IH. simpl. rewrite andb_true_r. apply andb_comm.
Qed.
End Dropwhile.

(** ** [strip] *)

Lemma lstrip_nil (s : str) : lstrip s = [] <-> blank s = true.
Proof. apply dropwhile_nil. Qed.

Lemma blank_rev (s : str) : blank (rev s) = blank s.
Proof.
  unfold blank. induction s as [|c s IH]; simpl; [reflexivity|].
  rewrite forallb_app, IH. simpl. rewrite andb_true_r. apply andb_comm.
Qed.

Lemma rstrip_nil (s : str) : rstrip s = [] <-> blank s = true.
Proof.
  unfold rstrip. rewrite <- blank_rev. rewrite <- (dropwhile_nil is_space).
  split; intros H.
  - apply (f_equal (@rev ascii)) in H. now rewrite rev_involutive in H.
  - now rewrite H.
Qed.

Lemma rev_rstrip (s : str) : rev (rstrip s) = lstrip (rev s).
Proof. unfold rstrip, lstrip. apply rev_involutive. Qed.

Lemma rstrip_rev (s : str) : rstrip (rev s) = rev (lstrip s).
Proof. unfold rstrip, lstrip. now rewrite rev_involutive. Qed.

Lemma lstrip_blank_false (s : str) :
  blank s = false -> blank (lstrip s) = false.
Proof.
  unfold lstrip, blank. induction s as [|c s IH]; simpl; [discriminate|].
  destruct (is_space c) eqn:E; simpl; [exact IH|].
  now rewrite E.
Qed.


Lemma strip_nil (s : str) : strip s = [] <-> blank s = true.
Proof.
  unfold strip. rewrite rstrip_nil. split; intros H.
  - destruct (blank s) eqn:E; [reflexivity|].
    apply lstrip_blank_false in E. congruence.
  - apply lstrip_nil in H. now rewrite H.
Qed.

Lemma strip_blank_false (s : str) : blank s = false -> strip s <> [].
Proof. intros H E. apply strip_nil in E. congruence. Qed.

Lemma lstrip_app_blank (a b : str) :
  blank a = true -> lstrip (a ++ b) = lstrip b.
Proof. apply dropwhile_all. Qed.

Lemma lstrip_app_stop (a b : str) :
  blank a = false -> lstrip (a ++ b) = lstrip a ++ b.
Proof. apply dropwhile_stop. Qed.

Lemma rstrip_app_blank (a b : str) :
  blank b = true -> rstrip (a ++ b) = rstrip a.
Proof.
  intros H. unfold rstrip. rewrite rev_app_distr.
  rewrite dropwhile_all; [reflexivity|]. fold (blank (rev b)).
  now rewrite blank_rev.
Qed.


(** The stripped text sits inside the text, between two blank parts. *)
Lemma strip_inside (s : str) :
  exists pre post,
    s = pre ++ strip s ++ post /\ blank pre = true /\ blank post = true.
Proof.
  destruct (dropwhile_split is_space s) as [pre [E Hpre]].
  destruct (dropwhile_split is_space (rev (lstrip s))) as [post [E' Hpost]].
  exists pre, (rev post). split; [|split].
  - unfold strip, rstrip. rewrite <- rev_app_distr, <- E', rev_involutive.
    exact E.
  - exact Hpre.
  - rewrite blank_rev. exact Hpost.
Qed.

(** ** [startswith] and [in] *)

Lemma startswith_spec (s p : str) :
  startswith s p = true <-> exists post, s = p ++ post.
Proof.
  revert s. induction p as [|a p IH]; intros s; simpl.
  - split; [intros _; now exists s|reflexivity].
  - destruct s as [|b s].
    + split; [discriminate|]. intros [post H]. discriminate.
    + rewrite andb_true_iff, Ascii.eqb_eq, IH. split.
      * intros [-> [post ->]]. now exists post.
      * intros [post H]. injection H as -> ->. split; [reflexivity|now exists post].
Qed.

Lemma contains_spec (k s : str) :
  contains k s = true <-> substring k s.
Proof.
  unfold substring. induction s as [|c s IH]; simpl.
  - rewrite orb_false_r, startswith_spec. split.
    + intros [post H]. now exists [], post.
    + intros [pre [post H]]. destruct pre; [now exists post|discriminate].
  - rewrite orb_true_iff, startswith_spec, IH. split.
    + intros [[post H]|[pre [post H]]].
      * now exists [], post.
      * exists (c :: pre), post. simpl. now f_equal.
    + intros [pre [post H]]. destruct pre as [|d pre].
      * left. now exists post.
      * right. injection H as _ H. now exists pre, post.
Qed.

Lemma substring_refl (s : str) : substring s s.
Proof. exists [], []. now rewrite app_nil_r. Qed.

Lemma substring_trans (a b c : str) :
  substring a b -> substring b c -> substring a c.
Proof.
  intros [p1 [q1 ->]] [p2 [q2 ->]].
  exists (p2 ++ p1), (q1 ++ q2). now rewrite <- !app_assoc.
Qed.


Lemma substring_app_r (k a b : str) : substring k b -> substring k (a ++ b).
Proof.
  intros [p [q ->]]. exists (a ++ p), q. now rewrite <- !app_assoc.
Qed.

Lemma substring_strip (s : str) : substring (strip s) s.
Proof.
  destruct (strip_inside s) as [pre [post [E _]]]. now exists pre, post.
Qed.

Lemma substring_nonempty (k s : str) : substring k s -> k <> [] -> s <> [].
Proof.
  intros [p [q ->]] Hk E. apply app_eq_nil in E as [_ E].
  apply app_eq_nil in E as [E _]. contradiction.
Qed.

(** ** [join] *)

Lemma join_cons (sep x : str) (r : list str) :
  r <> [] -> join sep (x :: r) = x ++ sep ++ join sep r.
Proof. destruct r; [congruence|reflexivity]. Qed.

Lemma join_snoc (sep x : str) (ls : list str) :
  ls <> [] -> join sep (ls ++ [x]) = join sep ls ++ sep ++ x.
Proof.
  induction ls as [|y ls IH]; [congruence|]. intros _.
  destruct ls as [|z ls]; [reflexivity|].
  change ((y :: z :: ls) ++ [x]) with (y :: ((z :: ls) ++ [x])).
  rewrite join_cons by (simpl; discriminate).
  rewrite IH by discriminate.
  rewrite (join_cons sep y (r := z :: ls)) by discriminate.
  now rewrite <- !app_assoc.
Qed.

Lemma rev_join (ls : list str) :
  rev (join nl ls) = join nl (map (@rev ascii) (rev ls)).
Proof.
  induction ls as [|x ls IH]; [reflexivity|].
  destruct ls as [|y ls]; [reflexivity|].
  rewrite join_cons by discriminate.
  rewrite !rev_app_distr, IH.
  change (rev (x :: y :: ls)) with (rev (y :: ls) ++ [x]).
  rewrite map_app. change (map (@rev ascii) [x]) with [rev x].
  rewrite join_snoc.
  - now rewrite <- app_assoc.
  - intros E. apply map_eq_nil in E. simpl in E.
    apply app_eq_nil in E as [_ E]. discriminate.
Qed.

Lemma join_terminated (ls : list str) :
  ls <> [] -> join nl ls ++ nl = List.concat (map (fun l => l ++ nl) ls).
Proof.
  induction ls as [|x ls IH]; [congruence|]. intros _.
  destruct ls as [|y ls].
  - simpl. now rewrite app_nil_r.
  - rewrite join_cons by discriminate.
    change (map (fun l => l ++ nl) (x :: y :: ls))
      with ((x ++ nl) :: map (fun l => l ++ nl) (y :: ls)).
    rewrite concat_cons, <- IH by discriminate.
    now rewrite <- !app_assoc.
Qed.

(** ** [splitlines] *)

Lemma after_break_cases (c : ascii) (rest : str) :
  after_break c rest = rest \/ after_break c rest = tl rest.
Proof.
  destruct rest as [|d rest]; simpl; [now left|].
  destruct (Ascii.eqb c CR && Ascii.eqb d LF); [now right|now left].
Qed.

Lemma after_break_suffix (c : ascii) (rest : str) :
  exists pre, rest = pre ++ after_break c rest.
Proof.
  destruct rest as [|d rest]; simpl; [now exists []|].
  destruct (Ascii.eqb c CR && Ascii.eqb d LF); [now exists [d]|now exists []].
Qed.

Lemma after_break_LF (rest : str) : after_break LF rest = rest.
Proof. destruct rest; reflexivity. Qed.

(** Induction along the recursion of [splitlines]. *)
Lemma splitlines_ind (P : str -> Prop) :
  P [] ->
  (forall c rest, is_linebreak c = true ->
                  P (after_break c rest) -> P (c :: rest)) ->
  (forall c rest, is_linebreak c = false -> P rest -> P (c :: rest)) ->
  forall s, P s.
Proof.
  intros Hnil Hbrk Hchr s.
  assert (H : P s /\ P (tl s)); [|exact (proj1 H)].
  induction s as [|c rest [IH1 IH2]]; simpl; [now split|].
  split; [|exact IH1].
  destruct (is_linebreak c) eqn:E.
  - apply Hbrk; [exact E|].
    destruct (after_break_cases c rest) as [-> | ->]; assumption.
  - now apply Hchr.
Qed.

Lemma splitlines_nil (s : str) : splitlines s = [] -> s = [].
Proof.
  destruct s as [|c rest]; [reflexivity|]. simpl.
  destruct (is_linebreak c); [discriminate|].
  destruct (splitlines rest); discriminate.
Qed.

Lemma splitlines_no_break (s : str) :
  Forall (fun l => no_break l = true) (splitlines s).
Proof.
  induction s as [|c rest Hc IH|c rest Hc IH] using splitlines_ind; simpl.
  - constructor.
  - rewrite Hc. constructor; [reflexivity|exact IH].
  - rewrite Hc. destruct (splitlines rest) as [|l ls].
    + repeat constructor. simpl. now rewrite Hc.
    + inversion IH as [|? ? Hl Hls]; subst.
      constructor; [|exact Hls]. simpl. now rewrite Hc, Hl.
Qed.

Lemma splitlines_line (l rest : str) :
  no_break l = true -> splitlines (l ++ LF :: rest) = l :: splitlines rest.
Proof.
  induction l as [|c l IH]; simpl.
  - intros _. now rewrite after_break_LF.
  - intros H. apply andb_true_iff in H as [Hc Hl].
    apply negb_true_iff in Hc. rewrite Hc, IH by exact Hl. reflexivity.
Qed.

Lemma splitlines_nl (rest : str) :
  splitlines (nl ++ rest) = [] :: splitlines rest.
Proof. exact (splitlines_line [] rest eq_refl). Qed.

Lemma splitlines_lines (ls : list str) (rest : str) :
  Forall (fun l => no_break l = true) ls ->
  splitlines (List.concat (map (fun l => l ++ nl) ls) ++ rest)
  = ls ++ splitlines rest.
Proof.
  induction 1 as [|l ls Hl _ IH]; simpl; [reflexivity|].
  rewrite <- !app_assoc. simpl. rewrite splitlines_line by exact Hl.
  now rewrite IH.
Qed.

Lemma splitlines_single (l : str) :
  no_break l = true -> l <> [] -> splitlines l = [l].
Proof.
  induction l as [|c l IH]; [congruence|]. simpl. intros H _.
  apply andb_true_iff in H as [Hc Hl]. apply negb_true_iff in Hc.
  rewrite Hc. destruct l as [|d l]; [reflexivity|].
  rewrite IH by (assumption || discriminate). reflexivity.
Qed.

(** Lines none of which holds a line boundary, the last one not empty, are
    recovered from their join. *)
Lemma splitlines_join (ls : list str) (l : str) :
  Forall (fun x => no_break x = true) (ls ++ [l]) -> l <> [] ->
  splitlines (join nl (ls ++ [l])) = ls ++ [l].
Proof.
  intros H Hl. apply Forall_app in H as [Hls Hl'].
  inversion Hl' as [|? ? Hnb _]; subst.
  destruct ls as [|x ls]; [now apply splitlines_single|].
  rewrite join_snoc by discriminate.
  rewrite app_assoc, join_terminated by discriminate.
  rewrite splitlines_lines by exact Hls.
  now rewrite splitlines_single.
Qed.

Lemma splitlines_head_prefix (s l : str) (ls : list str) :
  splitlines s = l :: ls -> exists post, s = l ++ post.
Proof.
  revert l ls. induction s as [|c rest IH]; simpl; [discriminate|].
  intros l ls. destruct (is_linebreak c).
  - intros H. injection H as <- _. now exists (c :: rest).
  - destruct (splitlines rest) as [|l0 ls0] eqn:E.
    + intros H. injection H as <- _.
      apply splitlines_nil in E. subst. now exists [].
    + intros H. injection H as <- _.
      destruct (IH _ _ eq_refl) as [post ->]. now exists post.
Qed.

Lemma splitlines_substring (s l : str) :
  In l (splitlines s) -> substring l s.
Proof.
  induction s as [|c rest Hc IH|c rest Hc IH] using splitlines_ind; simpl.
  - tauto.
  - rewrite Hc. intros [<-|H].
    + now exists [], (c :: rest).
    + destruct (after_break_suffix c rest) as [pre E].
      apply (substring_app_r (c :: pre)) in IH; [|exact H].
      simpl in IH. now rewrite <- E in IH.
  - rewrite Hc. destruct (splitlines rest) as [|l0 ls0] eqn:E.
    + intros [<-|[]]. apply splitlines_nil in E. subst. apply substring_refl.
    + intros [<-|H].
      * destruct (splitlines_head_prefix _ E) as [post ->].
        now exists [], post.
      * apply (substring_app_r [c]). apply IH. now right.
Qed.

(** A text whose only line boundaries are "\n" is the join of its lines, up
    to one final "\n". *)
Lemma lf_only_join (text : str) :
  lf_only text = true ->
  text = join nl (splitlines text) \/ text = join nl (splitlines text) ++ nl.
Proof.
  unfold lf_only. induction text as [|c rest IH]; [now left|].
  cbn [forallb splitlines].
  intros H. apply andb_true_iff in H as [Hc Hrest].
  specialize (IH Hrest). destruct (is_linebreak c) eqn:E.
  - simpl in Hc. apply Ascii.eqb_eq in Hc. subst c.
    rewrite after_break_LF.
    destruct (splitlines rest) as [|l ls] eqn:El.
    + apply splitlines_nil in El. subst. now right.
    + rewrite join_cons by discriminate. cbn [app nl].
      destruct IH as [IH|IH]; [left|right]; now rewrite <- IH.
  - destruct (splitlines rest) as [|l ls] eqn:El.
    + apply splitlines_nil in El. subst. now left.
    + destruct ls as [|l2 ls].
      * cbn [join app] in *.
        destruct IH as [IH|IH]; [left|right]; now rewrite <- IH.
      * rewrite join_cons by discriminate.
        rewrite join_cons in IH by discriminate.
        cbn [app]. destruct IH as [IH|IH]; [left|right]; now rewrite <- IH.
Qed.

(** ** The splitter loop forms the specified runs *)

Lemma group_lines_step (l l2 : str) (rest : list str) :
  group_lines (l :: l2 :: rest)
  = if is_marker l2 then [l] :: group_lines (l2 :: rest)
    else match group_lines (l2 :: rest) with
         | g :: gs => (l :: g) :: gs
         | [] => [[l]]
         end.
Proof. reflexivity. Qed.

Lemma group_open (cur : list str) :
  cur <> [] -> open_run cur = true -> group_lines cur = [cur].
Proof.
  unfold open_run. induction cur as [|x cur IH]; [congruence|]. intros _.
  destruct cur as [|y cur]; [reflexivity|].
  cbn [tl forallb]. intros H. apply andb_true_iff in H as [Hy Hcur].
  apply negb_true_iff in Hy.
  rewrite group_lines_step, Hy.
  now rewrite IH by (discriminate || exact Hcur).
Qed.

Lemma group_app_marker (cur : list str) (l : str) (ls : list str) :
  cur <> [] -> open_run cur = true -> is_marker l = true ->
  group_lines (cur ++ l :: ls) = cur :: group_lines (l :: ls).
Proof.
  unfold open_run. induction cur as [|x cur IH]; [congruence|]. intros _.
  destruct cur as [|y cur].
  - intros _ Hl. cbn [app]. now rewrite group_lines_step, Hl.
  - cbn [tl forallb]. intros H Hl. apply andb_true_iff in H as [Hy Hcur].
    apply negb_true_iff in Hy.
    change ((x :: y :: cur) ++ l :: ls) with (x :: y :: (cur ++ l :: ls)).
    rewrite group_lines_step, Hy.
    change (y :: cur ++ l :: ls) with ((y :: cur) ++ l :: ls).
    now rewrite IH by (discriminate || assumption).
Qed.

Lemma open_run_snoc (cur : list str) (l : str) :
  open_run cur = true -> is_marker l = false -> open_run (cur ++ [l]) = true.
Proof.
  unfold open_run. destruct cur as [|x cur]; [reflexivity|].
  cbn [app tl]. intros H Hl. rewrite forallb_app, H. simpl. now rewrite Hl.
Qed.

Lemma split_loop (ls blocks cur : list str) :
  open_run cur = true ->
  emit_open (fold_left split_step ls (blocks, cur))
  = blocks ++ map close_block (group_lines (cur ++ ls)).
Proof.
  revert blocks cur. induction ls as [|l ls IH]; intros blocks cur Hcur.
  - rewrite app_nil_r. destruct cur as [|x cur].
    + simpl. now rewrite app_nil_r.
    + now rewrite group_open by (discriminate || assumption).
  - cbn [fold_left]. unfold split_step at 2.
    destruct (is_marker l) eqn:Hl.
    + destruct cur as [|x cur].
      * apply IH. reflexivity.
      * rewrite IH by reflexivity.
        rewrite group_app_marker by (discriminate || assumption).
        cbn [map app]. now rewrite <- app_assoc.
    + rewrite IH by (now apply open_run_snoc).
      now rewrite <- app_assoc.
Qed.

Lemma split_scenarios_groups (text : str) :
  split_scenarios text = map close_block (group_lines (splitlines text)).
Proof.
  change (split_scenarios text)
    with (emit_open (fold_left split_step (splitlines text) ([], []))).
  now rewrite split_loop.
Qed.

Lemma group_concat (ls : list str) : List.concat (group_lines ls) = ls.
Proof.
  induction ls as [|l ls IH]; [reflexivity|].
  destruct ls as [|l2 ls]; [reflexivity|].
  rewrite group_lines_step. destruct (is_marker l2).
  - cbn [List.concat app]. now rewrite IH.
  - destruct (group_lines (l2 :: ls)) as [|g gs]; [discriminate|].
    cbn [List.concat app] in *. now rewrite IH.
Qed.

Lemma group_nonempty (ls : list str) :
  Forall (fun g => g <> []) (group_lines ls).
Proof.
  induction ls as [|l ls IH]; [constructor|].
  destruct ls as [|l2 ls]; [repeat constructor; discriminate|].
  rewrite group_lines_step. destruct (is_marker l2).
  - constructor; [discriminate|exact IH].
  - destruct (group_lines (l2 :: ls)) as [|g gs].
    + repeat constructor; discriminate.
    + inversion IH; subst. constructor; [discriminate|assumption].
Qed.

Lemma group_open_runs (ls : list str) :
  Forall (fun g => open_run g = true) (group_lines ls).
Proof.
  induction ls as [|l ls IH]; [constructor|].
  destruct ls as [|l2 ls]; [repeat constructor|].
  rewrite group_lines_step. destruct (is_marker l2) eqn:E.
  - constructor; [reflexivity|exact IH].
  - pose proof (group_concat (l2 :: ls)) as Hc.
    destruct (group_lines (l2 :: ls)) as [|g gs]; [discriminate|].
    inversion IH as [|? ? Hg Hgs]; subst. constructor; [|exact Hgs].
    pose proof (group_nonempty (l2 :: ls)) as Hn.
    destruct g as [|y g].
    + reflexivity.
    + cbn [List.concat app] in Hc. injection Hc as -> _.
      unfold open_run in *. cbn [tl forallb] in *. now rewrite E, Hg.
Qed.

Lemma group_heads (ls : list str) :
  Forall (fun g => exists l r, g = l :: r /\ is_marker l = true)
         (tl (group_lines ls)).
Proof.
  induction ls as [|l ls IH]; [constructor|].
  destruct ls as [|l2 ls]; [constructor|].
  rewrite group_lines_step. destruct (is_marker l2) eqn:E.
  - cbn [tl]. pose proof (group_concat (l2 :: ls)) as Hc.
    pose proof (group_nonempty (l2 :: ls)) as Hn.
    destruct (group_lines (l2 :: ls)) as [|g gs]; [constructor|].
    constructor; [|exact IH].
    inversion Hn as [|? ? Hg _]; subst.
    destruct g as [|y g]; [congruence|].
    cbn [List.concat app] in Hc. injection Hc as -> _.
    now exists l2, g.
  - destruct (group_lines (l2 :: ls)) as [|g gs]; [constructor|exact IH].
Qed.

Lemma group_no_marker (ls : list str) :
  ls <> [] -> forallb (fun l => negb (is_marker l)) ls = true ->
  group_lines ls = [ls].
Proof.
  intros Hne H. apply group_open; [exact Hne|].
  unfold open_run. destruct ls as [|l ls]; [reflexivity|].
  cbn [tl]. cbn [forallb] in H. now apply andb_true_iff in H as [_ H].
Qed.

(** ** Stripping a joined run *)

Lemma lstrip_join (ls : list str) :
  lstrip (join nl ls) = join nl (lstrip_first (dropwhile blank ls)).
Proof.
  induction ls as [|x ls IH]; [reflexivity|].
  destruct ls as [|y ls].
  - cbn [join dropwhile]. destruct (blank x) eqn:E.
    + now apply lstrip_nil.
    + reflexivity.
  - rewrite join_cons by discriminate. cbn [dropwhile].
    destruct (blank x) eqn:E.
    + rewrite lstrip_app_blank by exact E.
      rewrite lstrip_app_blank by reflexivity. exact IH.
    + rewrite lstrip_app_stop by exact E. reflexivity.
Qed.

Lemma dropwhile_blank_map_rev (ls : list str) :
  dropwhile blank (map (@rev ascii) ls)
  = map (@rev ascii) (dropwhile blank ls).
Proof.
  induction ls as [|x ls IH]; [reflexivity|].
  cbn [map dropwhile]. rewrite blank_rev.
  destruct (blank x); [exact IH|reflexivity].
Qed.

Lemma lstrip_first_map_rev (ls : list str) :
  lstrip_first (map (@rev ascii) ls) = map (@rev ascii) (rstrip_head ls).
Proof.
  destruct ls as [|x ls]; [reflexivity|].
  cbn [map lstrip_first rstrip_head]. now rewrite rev_rstrip.
Qed.

Lemma map_rev_rev (ls : list str) :
  map (@rev ascii) (map (@rev ascii) ls) = ls.
Proof.
  induction ls as [|x ls IH]; [reflexivity|].
  cbn [map]. now rewrite rev_involutive, IH.
Qed.

Lemma rstrip_join (ls : list str) :
  rstrip (join nl ls)
  = join nl (rstrip_last (rev (dropwhile blank (rev ls)))).
Proof.
  rewrite <- (rev_involutive (join nl ls)) at 1.
  rewrite rstrip_rev, rev_join, lstrip_join, rev_join.
  rewrite dropwhile_blank_map_rev, lstrip_first_map_rev.
  rewrite <- map_rev, map_rev_rev.
  unfold rstrip_last. now rewrite rev_involutive.
Qed.

Lemma rstrip_last_snoc (ls : list str) (y : str) :
  rstrip_last (ls ++ [y]) = ls ++ [rstrip y].
Proof.
  unfold rstrip_last. rewrite rev_app_distr. cbn [rev app rstrip_head].
  now rewrite rev_involutive.
Qed.

(** Dropping the trailing blank lines commutes with stripping the first
    line, once the leading blank lines are gone. *)
Lemma drop_trailing_lstrip_first (ls : list str) :
  rev (dropwhile blank (rev (lstrip_first (dropwhile blank ls))))
  = lstrip_first (drop_blank_ends ls).
Proof.
  unfold drop_blank_ends.
  destruct (dropwhile blank ls) as [|x r] eqn:E; [reflexivity|].
  pose proof (dropwhile_head _ _ E) as Hx.
  cbn [lstrip_first rev].
  destruct (forallb blank (rev r)) eqn:Hr.
  - rewrite !dropwhile_all by exact Hr. cbn [dropwhile].
    rewrite Hx, (lstrip_blank_false _ Hx). reflexivity.
  - rewrite !dropwhile_stop by exact Hr.
    now rewrite !rev_app_distr.
Qed.

(** What [close_block] keeps of a run, line by line. *)
Lemma close_block_trim (run : list str) :
  close_block run = join nl (trim_run run).
Proof.
  unfold close_block, strip, trim_run.
  now rewrite lstrip_join, rstrip_join, drop_trailing_lstrip_first.
Qed.

Lemma trim_run_trimmed (run : list str) : trimmed run (trim_run run).
Proof.
  unfold trim_run, drop_blank_ends.
  destruct (dropwhile_split blank run) as [pre [E Hpre]].
  destruct (dropwhile_split blank (rev (dropwhile blank run)))
    as [post [E' Hpost]].
  destruct (dropwhile blank (rev (dropwhile blank run))) as [|y r] eqn:EY.
  - apply trimmed_blank. rewrite E, forallb_app, Hpre.
    rewrite <- forallb_rev, E', app_nil_r. exact Hpost.
  - pose proof (dropwhile_head _ _ EY) as Hy.
    apply (f_equal (@rev str)) in E'.
    rewrite rev_involutive, rev_app_distr in E'. cbn [rev] in E' |- *.
    destruct (rev r) as [|x mid] eqn:Er.
    + cbn [app] in *. rewrite E' in E. rewrite E at 1.
      cbn [lstrip_first]. unfold rstrip_last. cbn [rev app rstrip_head].
      apply (trimmed_one pre (rev post) y);
        [exact Hpre|now rewrite forallb_rev|exact Hy].
    + cbn [app] in E'. pose proof (dropwhile_head _ _ E') as Hx.
      rewrite E' in E. rewrite E at 1.
      cbn [lstrip_first app].
      change (lstrip x :: mid ++ [y]) with ((lstrip x :: mid) ++ [y]).
      rewrite rstrip_last_snoc. rewrite <- app_assoc. cbn [app].
      apply (trimmed_many pre mid (rev post) x y);
        [exact Hpre|now rewrite forallb_rev|exact Hx|exact Hy].
Qed.

Lemma no_break_lstrip (l : str) : no_break l = true -> no_break (lstrip l) = true.
Proof. apply forallb_dropwhile. Qed.

Lemma no_break_rstrip (l : str) : no_break l = true -> no_break (rstrip l) = true.
Proof.
  intros H. unfold rstrip, no_break. rewrite forallb_rev.
  apply forallb_dropwhile. now rewrite forallb_rev.
Qed.

Lemma no_break_strip (l : str) : no_break l = true -> no_break (strip l) = true.
Proof. intros H. now apply no_break_rstrip, no_break_lstrip. Qed.

(** The lines kept of a run are the lines of the block made of them. *)
Lemma trimmed_splitlines (run kept : list str) :
  trimmed run kept -> Forall (fun l => no_break l = true) run ->
  splitlines (join nl kept) = kept.
Proof.
  intros [run' _|pre post l _ _ Hl|pre mid post first last _ _ Hf Hl] Hnb.
  - reflexivity.
  - apply Forall_app in Hnb as [_ Hnb]. inversion Hnb; subst.
    apply (splitlines_join []).
    + repeat constructor. now apply no_break_strip.
    + now apply strip_blank_false.
  - apply Forall_app in Hnb as [_ Hnb].
    inversion Hnb as [|? ? Hfirst Hrest]; subst.
    apply Forall_app in Hrest as [Hmid Hrest].
    inversion Hrest as [|? ? Hlast _]; subst.
    change (lstrip first :: mid ++ [rstrip last])
      with ((lstrip first :: mid) ++ [rstrip last]).
    apply splitlines_join.
    + apply Forall_app. split.
      * constructor; [now apply no_break_lstrip|exact Hmid].
      * repeat constructor. now apply no_break_rstrip.
    + intros E. apply rstrip_nil in E. congruence.
Qed.

(** ** Substrings of blocks come from the text *)

Lemma substring_app_sep (k a b : str) (c : ascii) :
  substring k (a ++ c :: b) -> ~ In c k -> substring k a \/ substring k b.
Proof.
  intros [p [q E]] Hc.
  apply app_eq_app in E as [l [[-> E]|[-> E]]].
  - apply app_eq_app in E as [l' [[-> E]|[-> E]]].
    + destruct l' as [|d l'].
      * left. exists p, []. now rewrite !app_nil_r.
      * injection E as <- _. exfalso. apply Hc, in_or_app. right. now left.
    + left. now exists p, l'.
  - destruct l as [|d l].
    + destruct k as [|d k].
      * left. exists a, []. now rewrite app_nil_r.
      * injection E as -> _. exfalso. apply Hc. now left.
    + injection E as _ ->. right. now exists l, q.
Qed.

Lemma substring_join (k : str) (run : list str) :
  substring k (join nl run) -> ~ In LF k -> k <> [] ->
  exists l, In l run /\ substring k l.
Proof.
  intros H Hk Hne. induction run as [|x run IH].
  - exfalso. apply (substring_nonempty H Hne). reflexivity.
  - destruct run as [|y run].
    + exists x. split; [now left|exact H].
    + rewrite join_cons in H by discriminate.
      apply substring_app_sep in H as [H|H]; [| |exact Hk].
      * exists x. split; [now left|exact H].
      * destruct (IH H) as [l [Hl Hs]]. exists l. split; [now right|exact Hs].
Qed.

Lemma block_substring (text b k : str) :
  In b (split_scenarios text) -> substring k b -> ~ In LF k -> k <> [] ->
  substring k text.
Proof.
  rewrite split_scenarios_groups. intros Hb Hk HLF Hne.
  apply in_map_iff in Hb as [run [<- Hrun]].
  pose proof (substring_trans Hk (substring_strip _)) as Hj.
  destruct (substring_join _ Hj HLF Hne) as [l [Hl Hs]].
  apply (substring_trans Hs). apply splitlines_substring.
  rewrite <- (group_concat (splitlines text)).
  apply in_concat. now exists run.
Qed.

(** ** The classifiers *)

Lemma is_valid_scenario_spec (b : str) :
  is_valid_scenario b = true <->
  substring (py "Given") b /\ substring (py "When") b
  /\ substring (py "Then") b.
Proof.
  unfold is_valid_scenario. cbn [forallb].
  rewrite andb_true_r, !andb_true_iff, !contains_spec. tauto.
Qed.

Lemma contains_known_actions_spec (b : str) :
  contains_known_actions b = true <->
  substring (py "login") (lower b) \/ substring (py "submit") (lower b)
  \/ substring (py "approve") (lower b).
Proof.
  unfold contains_known_actions, HAPPY_KEYWORDS. cbn [existsb].
  rewrite orb_false_r, !orb_true_iff, !contains_spec. tauto.
Qed.

Lemma is_happy_path_spec (b : str) :
  is_happy_path b = true <->
  substring (py "happy path") (lower b)
  \/ (substring (py "success") (lower b) /\ substring (py "valid") (lower b)).
Proof.
  unfold is_happy_path.
  rewrite orb_true_iff, andb_true_iff, !contains_spec. tauto.
Qed.

Lemma valid_block_nonempty (b : str) : is_valid_scenario b = true -> b <> [].
Proof.
  intros H. apply is_valid_scenario_spec in H as [H _].
  apply (substring_nonempty H). discriminate.
Qed.

Lemma happy_blocks_valid (text b : str) :
  In b (r_happy (validate_and_select_happy text)) <->
  In b (split_scenarios text) /\ is_valid_scenario b = true
  /\ happy_condition b = true.
Proof.
  cbn [validate_and_select_happy r_happy]. rewrite !filter_In. tauto.
Qed.

Lemma happy_blocks_nonempty (text : str) :
  Forall (fun b => b <> []) (r_happy (validate_and_select_happy text)).
Proof.
  apply Forall_forall. intros b Hb. apply happy_blocks_valid in Hb.
  now apply valid_block_nonempty.
Qed.

(** ** The feature file *)

Lemma fold_body_step (happy : list str) (acc : str) :
  fold_left body_step happy acc
  = acc ++ List.concat
             (map (fun s => join nl (map indent_line (splitlines s))
                            ++ nl ++ nl) happy).
Proof.
  revert acc. induction happy as [|s happy IH]; intros acc; simpl.
  - now rewrite app_nil_r.
  - rewrite IH. unfold body_step. now rewrite <- app_assoc.
Qed.

Lemma indent_line_blank (line : str) :
  blank line = true -> indent_line line = [].
Proof.
  intros H. apply strip_nil in H. unfold indent_line. now rewrite H.
Qed.

Lemma indent_line_text (line : str) :
  blank line = false -> indent_line line = SP :: SP :: line.
Proof.
  intros H. apply strip_blank_false in H. unfold indent_line.
  destruct (strip line); [congruence|reflexivity].
Qed.

Lemma indent_no_break (line : str) :
  no_break line = true -> no_break (indent_line line) = true.
Proof.
  intros H. destruct (blank line) eqn:E.
  - now rewrite indent_line_blank.
  - rewrite indent_line_text by exact E. simpl. exact H.
Qed.

Lemma header_no_break : Forall (fun l => no_break l = true) header_lines.
Proof. repeat constructor. Qed.

Lemma header_split (body : str) :
  splitlines (feature_header ++ body)
  = header_lines ++ [] :: splitlines body.
Proof.
  change feature_header
    with (List.concat (map (fun l => l ++ nl) header_lines) ++ nl).
  rewrite <- app_assoc, splitlines_lines by exact header_no_break.
  now rewrite splitlines_nl.
Qed.

Lemma block_split (s rest : str) :
  s <> [] ->
  splitlines ((join nl (map indent_line (splitlines s)) ++ nl ++ nl) ++ rest)
  = render_lines s ++ splitlines rest.
Proof.
  intros Hs. unfold render_lines.
  assert (Hne : map indent_line (splitlines s) <> []).
  { intros E. apply map_eq_nil in E. now apply splitlines_nil in E. }
  rewrite app_assoc, join_terminated by exact Hne.
  rewrite <- !app_assoc, splitlines_lines.
  - now rewrite splitlines_nl.
  - apply Forall_forall. intros l Hl.
    apply in_map_iff in Hl as [l0 [<- Hl0]]. apply indent_no_break.
    exact (proj1 (Forall_forall _ _) (splitlines_no_break s) _ Hl0).
Qed.

Lemma body_split (happy : list str) :
  Forall (fun s => s <> []) happy ->
  splitlines (feature_body happy) = List.concat (map render_lines happy).
Proof.
  unfold feature_body. rewrite fold_body_step. cbn [app].
  induction 1 as [|s happy Hs _ IH]; [reflexivity|].
  cbn [map List.concat]. now rewrite block_split, IH.
Qed.

Lemma strip_app_nl (s : str) : strip (s ++ nl) = strip s.
Proof.
  unfold strip. destruct (blank s) eqn:E.
  - rewrite lstrip_app_blank by exact E.
    apply lstrip_nil in E. now rewrite E.
  - rewrite lstrip_app_stop by exact E.
    now rewrite rstrip_app_blank.
Qed.

Lemma filter_none (A : Type) (f : A -> bool) (l : list A) :
  (forall x, In x l -> f x = false) -> filter f l = [].
Proof.
  induction l as [|x l IH]; [reflexivity|]. intros H. cbn [filter].
  rewrite (H x) by now left. apply IH. intros y Hy. apply H. now right.
Qed.

Lemma no_LF_in_keyword (k : str) :
  In k [py "Given"; py "When"; py "Then"] -> ~ In LF k /\ k <> [].
Proof.
  intros [<-|[<-|[<-|[]]]]; (split; [|discriminate]); intros H;
    repeat (destruct H as [H|H]; [discriminate|]); exact H.
Qed.

Lemma runs_no_break (text : str) :
  Forall (Forall (fun l => no_break l = true))
         (group_lines (splitlines text)).
Proof.
  apply Forall_forall. intros run Hrun. apply Forall_forall. intros l Hl.
  apply (proj1 (Forall_forall _ _) (splitlines_no_break text)).
  rewrite <- (group_concat (splitlines text)).
  apply in_concat. now exists run.
Qed.

Lemma split_scenarios_nil (text : str) :
  split_scenarios text = [] <-> text = [].
Proof.
  split; [|now intros ->].
  rewrite split_scenarios_groups. intros E. apply map_eq_nil in E.
  apply splitlines_nil. rewrite <- (group_concat (splitlines text)).
  now rewrite E.
Qed.

(** The step keywords are compared as written: lower-case steps do not make
    a block valid. *)
Example lowercase_steps_not_valid :
  is_valid_scenario (py "given a user when they login then success") = false.
Proof. reflexivity. Qed.

(** ** The claims *)

(** C1, as stated: on the eight-line login example the splitter does not
    return two blocks and the summary total is not 2. *)
Lemma login_example_not_two_blocks :
  ~ (List.length (split_scenarios login_example) = 2
     /\ total (r_summary (validate_and_select_happy login_example)) = 2
     /\ valid_count (r_summary (validate_and_select_happy login_example)) = 1
     /\ happy_count (r_summary (validate_and_select_happy login_example)) = 1).
Proof. vm_compute. intros [H _]. discriminate. Qed.

(** C1, amended: on the eight-line login example the splitter returns three
    blocks, the preamble line "Feature: Login" being a block of its own, and
    the summary is total=3, valid=1, happy=1. *)
Theorem login_example_three_blocks :
  split_scenarios login_example
  = [py "Feature: Login";
     join nl [py "Scenario: Successful login";
              py "Given a valid user";
              py "When they submit valid credentials";
              py "Then they reach the dashboard and see a success message"];
     join nl [py "Scenario: Invalid login";
              py "Given a user";
              py "When they submit"]]
  /\ map is_valid_scenario (split_scenarios login_example)
     = [false; true; false]
  /\ r_happy (validate_and_select_happy login_example)
     = r_valid (validate_and_select_happy login_example)
  /\ r_summary (validate_and_select_happy login_example)
     = mkSummary 3 1 1 true.
Proof. repeat split; vm_compute; reflexivity. Qed.

(** C2, as stated: a block is not always its run of source lines with only
    blank lines removed at the ends.  Of the indented example the only block
    starts with "Scenario: A", which is no line of the source: the first
    line has lost its indentation. *)
Lemma indented_block_not_verbatim :
  split_scenarios indented_example
  = [py "Scenario: A" ++ nl ++ py "    Given x"]
  /\ splitlines indented_example = [py "  Scenario: A"; py "    Given x"]
  /\ ~ In (py "Scenario: A") (splitlines indented_example)
  /\ split_scenarios indented_example
     <> map (fun run => join nl (drop_blank_ends run))
            (group_lines (splitlines indented_example)).
Proof.
  repeat split; try (vm_compute; reflexivity).
  - vm_compute. intros [H|[H|[]]]; discriminate.
  - vm_compute. discriminate.
Qed.

(** C2, amended: the runs of lines the blocks are made of concatenate to
    the lines of the text (no line dropped, invented or duplicated), and each
    block is its run joined by "\n" with the blank lines at both ends
    removed, the first remaining line stripped of its leading whitespace and
    the last remaining line of its trailing whitespace; every other line of
    the run is in the block verbatim and in order. *)
Theorem split_scenarios_lines (text : str) :
  List.concat (group_lines (splitlines text)) = splitlines text
  /\ Forall2 (fun run block =>
                block = join nl (trim_run run)
                /\ splitlines block = trim_run run
                /\ trimmed run (splitlines block))
             (group_lines (splitlines text)) (split_scenarios text).
Proof.
  split; [apply group_concat|].
  rewrite split_scenarios_groups.
  pose proof (runs_no_break text) as Hnb.
  induction Hnb as [|run runs Hrun _ IH]; cbn [map]; constructor.
  - pose proof (trim_run_trimmed run) as Ht.
    pose proof (trimmed_splitlines Ht Hrun) as Hs.
    rewrite close_block_trim, Hs. auto.
  - exact IH.
Qed.

(** C3, as stated: header and body, and two consecutive scenarios, are not
    separated by two blank lines.  With two one-line blocks there is one
    empty line after the header and one after each block. *)
Lemma two_blocks_single_blank_lines :
  splitlines (feature_content two_blocks)
  = header_lines ++ [[]; py "  Scenario: A"; []; py "  Scenario: B"; []]
  /\ ~ (exists rest,
          splitlines (feature_content two_blocks)
          = header_lines ++ [[]; []] ++ rest)
  /\ ~ (exists rest,
          splitlines (feature_content two_blocks)
          = header_lines ++ [[]; py "  Scenario: A"; []; []] ++ rest).
Proof.
  repeat split.
  - intros [rest H]. vm_compute in H. discriminate.
  - intros [rest H]. vm_compute in H. discriminate.
Qed.

(** C3, amended: the feature-file content is the fixed header followed, for
    each block in order, by the block's lines, each non-blank one prefixed
    with two spaces, joined by "\n" and followed by two newline characters.
    For blocks that are not empty this puts exactly one empty line between
    the header and the body, one between consecutive scenarios and one after
    the last. *)
Theorem feature_content_layout (happy : list str) :
  feature_content happy
  = feature_header
    ++ List.concat
         (map (fun s => join nl (map indent_line (splitlines s)) ++ nl ++ nl)
              happy)
  /\ (Forall (fun s => s <> []) happy ->
      splitlines (feature_content happy)
      = header_lines ++ [[]] ++ List.concat (map render_lines happy)).
Proof.
  split.
  - unfold feature_content, feature_body. now rewrite fold_body_step.
  - intros H. unfold feature_content. now rewrite header_split, body_split.
Qed.

Lemma feature_content_layout_witness :
  Forall (fun s => s <> []) two_blocks
  /\ splitlines (feature_content two_blocks)
     = header_lines ++ [[]] ++ List.concat (map render_lines two_blocks).
Proof.
  assert (H : Forall (fun s : str => s <> []) two_blocks)
    by (repeat constructor; discriminate).
  split; [exact H|].
  exact (proj2 (feature_content_layout two_blocks) H).
Defined.

(** C4: the condition that selects a block as happy holds if and only if
    the lower-cased text contains one of "login", "submit", "approve", and
    contains "happy path" or both "success" and "valid". *)
Theorem happy_condition_iff (b : str) :
  happy_condition b = true <->
  (substring (py "login") (lower b) \/ substring (py "submit") (lower b)
   \/ substring (py "approve") (lower b))
  /\ (substring (py "happy path") (lower b)
      \/ (substring (py "success") (lower b)
          /\ substring (py "valid") (lower b))).
Proof.
  unfold happy_condition.
  now rewrite andb_true_iff, contains_known_actions_spec, is_happy_path_spec.
Qed.

(** C5: [is_valid_scenario] is true exactly when the text contains the three
    substrings "Given", "When" and "Then", compared character by character
    and wherever they stand. *)
Theorem is_valid_scenario_iff (b : str) :
  is_valid_scenario b = true <->
  substring (py "Given") b /\ substring (py "When") b
  /\ substring (py "Then") b.
Proof.
  unfold is_valid_scenario. cbn [forallb].
  rewrite andb_true_r, !andb_true_iff.
  now rewrite !contains_spec.
Qed.

(** C6, as stated: a text without a marker does not always yield the trimmed
    input as its one block.  Of two lines separated by CR LF the block joins
    the lines with "\n". *)
Lemma crlf_block_not_trimmed_input :
  forallb (fun l => negb (is_marker l)) (splitlines crlf_example) = true
  /\ split_scenarios crlf_example = [py "a" ++ nl ++ py "b"]
  /\ strip crlf_example = py "a" ++ [CR; LF] ++ py "b"
  /\ split_scenarios crlf_example <> [strip crlf_example].
Proof.
  repeat split. vm_compute. discriminate.
Qed.

(** C6, amended: the splitter forms the runs of [group_lines] on the lines
    of the text: a run starts at every marker line, every other line stays
    in the run open before it (a preamble before the first marker is a run),
    and every run, the last one too, is emitted as a block ("\n"-joined and
    stripped).  A text that is not empty and has no marker line yields
    exactly one block, its lines joined by "\n" and stripped, which is the
    trimmed input when every line boundary of the text is "\n"; the empty
    text yields no block. *)
Theorem split_scenarios_scan (text : str) :
  split_scenarios text = map close_block (group_lines (splitlines text))
  /\ List.concat (group_lines (splitlines text)) = splitlines text
  /\ Forall (fun run => run <> [] /\ open_run run = true)
            (group_lines (splitlines text))
  /\ Forall (fun run => exists l r, run = l :: r /\ is_marker l = true)
            (tl (group_lines (splitlines text)))
  /\ (text <> [] ->
      forallb (fun l => negb (is_marker l)) (splitlines text) = true ->
      split_scenarios text = [strip (join nl (splitlines text))]
      /\ (lf_only text = true -> split_scenarios text = [strip text]))
  /\ split_scenarios [] = [].
Proof.
  split; [apply split_scenarios_groups|].
  split; [apply group_concat|].
  split.
  { apply Forall_forall. intros run Hrun. split.
    - exact (proj1 (Forall_forall _ _) (group_nonempty _) _ Hrun).
    - exact (proj1 (Forall_forall _ _) (group_open_runs _) _ Hrun). }
  split; [apply group_heads|].
  split; [|reflexivity].
  intros Hne Hnm.
  assert (Hl : splitlines text <> [])
    by (intros E; now apply splitlines_nil in E).
  assert (E : split_scenarios text = [strip (join nl (splitlines text))]).
  { rewrite split_scenarios_groups, group_no_marker by assumption.
    reflexivity. }
  split; [exact E|].
  intros Hlf. rewrite E.
  destruct (lf_only_join text Hlf) as [H|H].
  - now rewrite H at 2.
  - rewrite H at 2. now rewrite strip_app_nl.
Qed.

Lemma split_scenarios_scan_witness :
  py "Given a user" <> []
  /\ forallb (fun l => negb (is_marker l)) (splitlines (py "Given a user"))
     = true
  /\ lf_only (py "Given a user") = true
  /\ split_scenarios (py "Given a user") = [strip (py "Given a user")].
Proof.
  assert (H1 : py "Given a user" <> []) by discriminate.
  assert (H2 : forallb (fun l => negb (is_marker l))
                       (splitlines (py "Given a user")) = true)
    by reflexivity.
  assert (H3 : lf_only (py "Given a user") = true) by reflexivity.
  split; [exact H1|]. split; [exact H2|]. split; [exact H3|].
  destruct (split_scenarios_scan (py "Given a user"))
    as (_ & _ & _ & _ & H & _).
  exact (proj2 (H H1 H2) H3).
Defined.

(** C7: without a happy block the content is exactly the header, whose four
    lines are followed by one empty line; with blocks (none of them empty,
    as every happy block is) each line of each block is prefixed with exactly
    two spaces when it is not blank and becomes the empty line when it is,
    and every rendered block, the last one too, is followed by one empty
    line. *)
Theorem feature_content_rendering :
  feature_content [] = feature_header
  /\ splitlines (feature_content []) = header_lines ++ [[]]
  /\ (forall line, blank line = false -> indent_line line = SP :: SP :: line)
  /\ (forall line, blank line = true -> indent_line line = [])
  /\ (forall s happy,
        Forall (fun b => b <> []) (s :: happy) ->
        splitlines (feature_content (s :: happy))
        = header_lines ++ [[]]
          ++ List.concat
               (map (fun b => map indent_line (splitlines b) ++ [[]])
                    (s :: happy)))
  /\ (forall text,
        Forall (fun b => b <> []) (r_happy (validate_and_select_happy text))).
Proof.
  split; [unfold feature_content; apply app_nil_r|].
  split; [reflexivity|].
  split; [exact indent_line_text|].
  split; [exact indent_line_blank|].
  split; [|exact happy_blocks_nonempty].
  intros s happy H. unfold feature_content.
  now rewrite header_split, body_split.
Qed.

Lemma feature_content_rendering_witness :
  Forall (fun b => b <> []) [py "Scenario: A" ++ nl ++ nl ++ py "  Given x"]
  /\ splitlines
       (feature_content [py "Scenario: A" ++ nl ++ nl ++ py "  Given x"])
     = header_lines
       ++ [[]; py "  Scenario: A"; []; py "    Given x"; []].
Proof.
  assert (H : Forall (fun b : str => b <> [])
                     [py "Scenario: A" ++ nl ++ nl ++ py "  Given x"])
    by (repeat constructor; discriminate).
  split; [exact H|].
  destruct feature_content_rendering as (_ & _ & _ & _ & R & _).
  exact (R _ _ H).
Defined.

(** C8: the pipeline is a total function of the text: for every text it
    yields a result whose counts are the lengths of its sequences, with
    valid <= total and happy <= valid; on the empty text (and only there is
    the total zero) all sequences are empty and the summary is total=0,
    valid=0, happy=0, has_required_actions=true; and a text that lacks one of
    "Given", "When", "Then" yields empty valid and happy sequences with zero
    counts. *)
Theorem pipeline_total (text : str) :
  validate_and_select_happy [] = mkResult [] [] [] (mkSummary 0 0 0 true)
  /\ (exists r,
        validate_and_select_happy text = r
        /\ total (r_summary r) = List.length (r_all r)
        /\ valid_count (r_summary r) = List.length (r_valid r)
        /\ happy_count (r_summary r) = List.length (r_happy r)
        /\ valid_count (r_summary r) <= total (r_summary r)
        /\ happy_count (r_summary r) <= valid_count (r_summary r)
        /\ (total (r_summary r) = 0 <-> text = []))
  /\ (~ (substring (py "Given") text /\ substring (py "When") text
         /\ substring (py "Then") text) ->
      r_valid (validate_and_select_happy text) = []
      /\ r_happy (validate_and_select_happy text) = []
      /\ valid_count (r_summary (validate_and_select_happy text)) = 0
      /\ happy_count (r_summary (validate_and_select_happy text)) = 0).
Proof.
  split; [reflexivity|]. split.
  - eexists. split; [reflexivity|].
    cbn [validate_and_select_happy r_summary r_all r_valid r_happy
         total valid_count happy_count].
    split; [reflexivity|]. split; [reflexivity|]. split; [reflexivity|].
    split; [apply filter_length_le|]. split; [apply filter_length_le|].
    rewrite length_zero_iff_nil. apply split_scenarios_nil.
  - intros Hno.
    assert (E : filter is_valid_scenario (split_scenarios text) = []).
    { apply filter_none. intros b Hb.
      destruct (is_valid_scenario b) eqn:Hv; [|reflexivity].
      exfalso. apply Hno.
      apply is_valid_scenario_spec in Hv as (HG & HW & HT).
      destruct (@no_LF_in_keyword (py "Given")) as [G1 G2]; [simpl; auto|].
      destruct (@no_LF_in_keyword (py "When")) as [W1 W2]; [simpl; auto|].
      destruct (@no_LF_in_keyword (py "Then")) as [T1 T2]; [simpl; auto|].
      split; [|split].
      - exact (@block_substring text b (py "Given") Hb HG G1 G2).
      - exact (@block_substring text b (py "When") Hb HW W1 W2).
      - exact (@block_substring text b (py "Then") Hb HT T1 T2). }
    cbn [validate_and_select_happy r_summary r_valid r_happy
         valid_count happy_count].
    rewrite E. repeat split.
Qed.

Lemma pipeline_total_witness :
  ~ (substring (py "Given") (py "no steps here")
     /\ substring (py "When") (py "no steps here")
     /\ substring (py "Then") (py "no steps here"))
  /\ r_valid (validate_and_select_happy (py "no steps here")) = []
  /\ valid_count (r_summary (validate_and_select_happy (py "no steps here")))
     = 0.
Proof.
  assert (H : ~ (substring (py "Given") (py "no steps here")
                 /\ substring (py "When") (py "no steps here")
                 /\ substring (py "Then") (py "no steps here"))).
  { intros [HG _]. apply contains_spec in HG. vm_compute in HG.
    discriminate. }
  split; [exact H|].
  destruct (pipeline_total (py "no steps here")) as (_ & _ & D).
  destruct (D H) as (Hv & _ & Hc & _).
  split; [exact Hv|exact Hc].
Defined.

(** C9: for every text, every block of the happy sequence contains a known
    action, so the summary field has_required_actions is true; no text makes
    it false. *)
Theorem happy_blocks_contain_action :
  (forall text,
     Forall (fun b => contains_known_actions b = true)
            (r_happy (validate_and_select_happy text))
     /\ has_required_actions (r_summary (validate_and_select_happy text))
        = true)
  /\ ~ (exists text,
          has_required_actions (r_summary (validate_and_select_happy text))
          = false).
Proof.
  assert (H : forall text,
             Forall (fun b => contains_known_actions b = true)
                    (r_happy (validate_and_select_happy text))).
  { intros text. apply Forall_forall. intros b Hb.
    apply happy_blocks_valid in Hb as (_ & _ & Hb).
    unfold happy_condition in Hb. now apply andb_true_iff in Hb as [Hb _]. }
  assert (R : forall text,
             has_required_actions (r_summary (validate_and_select_happy text))
             = true).
  { intros text. specialize (H text).
    change (has_required_actions (r_summary (validate_and_select_happy text)))
      with (forallb contains_known_actions
                    (r_happy (validate_and_select_happy text))).
    apply forallb_forall. exact (proj1 (Forall_forall _ _) H). }
  split.
  - intros text. split; [apply H|apply R].
  - intros [text E]. rewrite R in E. discriminate.
Qed.

(** C10, as stated: the negative scenario given as the example, "When login
    with invalid credentials Then no success message", satisfies both
    selection predicates but is not selected into the happy sequence: it has
    no "Given" and is dropped by the validity filter. *)
Lemma negative_without_given_not_selected :
  is_happy_path negative_no_given = true
  /\ contains_known_actions negative_no_given = true
  /\ split_scenarios negative_no_given = [negative_no_given]
  /\ is_valid_scenario negative_no_given = false
  /\ r_happy (validate_and_select_happy negative_no_given) = []
  /\ ~ In negative_no_given
          (r_happy (validate_and_select_happy negative_no_given)).
Proof.
  split; [reflexivity|]. split; [reflexivity|]. split; [reflexivity|].
  split; [reflexivity|]. split; [reflexivity|].
  vm_compute. tauto.
Qed.

(** C10, amended: a block whose lower-cased text contains "success" and
    "invalid" passes [is_happy_path], the substring "valid" occurring inside
    "invalid"; consequently such a block, when it is valid (contains "Given",
    "When" and "Then") and mentions a known action, is selected into the
    happy sequence. *)
Theorem invalid_counts_as_valid (b : str) :
  substring (py "success") (lower b) ->
  substring (py "invalid") (lower b) ->
  substring (py "valid") (lower b)
  /\ is_happy_path b = true
  /\ (forall text,
        In b (split_scenarios text) ->
        is_valid_scenario b = true ->
        contains_known_actions b = true ->
        In b (r_happy (validate_and_select_happy text))).
Proof.
  intros Hs Hi.
  assert (Hv : substring (py "valid") (lower b)).
  { apply (substring_trans (b := py "invalid")); [|exact Hi].
    now exists (py "in"), []. }
  assert (Hh : is_happy_path b = true).
  { apply is_happy_path_spec. right. now split. }
  split; [exact Hv|]. split; [exact Hh|].
  intros text Hb Hval Hact. apply happy_blocks_valid.
  split; [exact Hb|]. split; [exact Hval|].
  unfold happy_condition. now rewrite Hact, Hh.
Qed.

Lemma invalid_counts_as_valid_witness :
  substring (py "success") (lower negative_with_given)
  /\ substring (py "invalid") (lower negative_with_given)
  /\ is_happy_path negative_with_given = true
  /\ In negative_with_given
        (r_happy (validate_and_select_happy negative_with_given)).
Proof.
  assert (Hs : substring (py "success") (lower negative_with_given))
    by (apply contains_spec; reflexivity).
  assert (Hi : substring (py "invalid") (lower negative_with_given))
    by (apply contains_spec; reflexivity).
  split; [exact Hs|]. split; [exact Hi|].
  destruct (invalid_counts_as_valid negative_with_given Hs Hi)
    as (_ & Hh & Hsel).
  split; [exact Hh|].
  apply (Hsel negative_with_given).
  - left. reflexivity.
  - reflexivity.
  - reflexivity.
Defined.

(** ** Further properties of the program *)

(** *** Stripping twice *)

Lemma lstrip_idem (s : str) : lstrip (lstrip s) = lstrip s.
Proof.
  unfold lstrip. induction s as [|c s IH]; [reflexivity|].
  cbn [dropwhile]. destruct (is_space c) eqn:E; [exact IH|].
  cbn [dropwhile]. now rewrite E.
Qed.

Lemma rstrip_idem (s : str) : rstrip (rstrip s) = rstrip s.
Proof.
  unfold rstrip. rewrite rev_involutive.
  fold (lstrip (rev s)). fold (lstrip (lstrip (rev s))).
  now rewrite lstrip_idem.
Qed.

Lemma rstrip_keeps_head (c : ascii) (s : str) :
  is_space c = false -> exists r, rstrip (c :: s) = c :: r.
Proof.
  intros Hc. change (c :: s) with ([c] ++ s).
  destruct (blank s) eqn:E.
  - rewrite rstrip_app_blank by exact E. exists [].
    unfold rstrip. cbn [rev app dropwhile]. now rewrite Hc.
  - unfold rstrip. rewrite rev_app_distr, dropwhile_stop.
    + rewrite rev_app_distr. cbn [rev app]. eauto.
    + fold (blank (rev s)). now rewrite blank_rev.
Qed.

Lemma rstrip_app_nonblank (a b : str) :
  blank b = false -> rstrip (a ++ b) = a ++ rstrip b.
Proof.
  intros H. unfold rstrip. rewrite rev_app_distr, dropwhile_stop.
  - now rewrite rev_app_distr, rev_involutive.
  - fold (blank (rev b)). now rewrite blank_rev.
Qed.

Lemma lstrip_rstrip (s : str) : lstrip (rstrip s) = rstrip (lstrip s).
Proof.
  destruct (dropwhile_split is_space s) as [pre [E Hpre]].
  fold (lstrip s) in E. fold (blank pre) in Hpre.
  destruct (lstrip s) as [|c t] eqn:Et.
  - assert (Hb : blank s = true) by now apply lstrip_nil.
    apply rstrip_nil in Hb. now rewrite Hb.
  - assert (Hc : is_space c = false)
      by exact (@dropwhile_head _ is_space s c t Et).
    assert (Hn : blank (c :: t) = false) by (cbn; now rewrite Hc).
    rewrite E at 1. rewrite rstrip_app_nonblank by exact Hn.
    rewrite lstrip_app_blank by exact Hpre.
    destruct (@rstrip_keeps_head c t Hc) as [r Hr]. rewrite Hr.
    unfold lstrip. cbn [dropwhile]. now rewrite Hc.
Qed.

Lemma strip_idem (s : str) : strip (strip s) = strip s.
Proof.
  unfold strip. now rewrite lstrip_rstrip, lstrip_idem, rstrip_idem.
Qed.

Lemma strip_lstrip (s : str) : strip (lstrip s) = strip s.
Proof. unfold strip. now rewrite lstrip_idem. Qed.

Lemma strip_rstrip (s : str) : strip (rstrip s) = strip s.
Proof. unfold strip. now rewrite lstrip_rstrip, rstrip_idem. Qed.

Lemma is_marker_lstrip (l : str) : is_marker (lstrip l) = is_marker l.
Proof. unfold is_marker. now rewrite strip_lstrip. Qed.

Lemma is_marker_rstrip (l : str) : is_marker (rstrip l) = is_marker l.
Proof. unfold is_marker. now rewrite strip_rstrip. Qed.

Lemma is_marker_strip (l : str) : is_marker (strip l) = is_marker l.
Proof. unfold is_marker. now rewrite strip_idem. Qed.

Lemma rstrip_prefix (s : str) : exists post, s = rstrip s ++ post.
Proof.
  destruct (dropwhile_split is_space (rev s)) as [pre [E _]].
  exists (rev pre). unfold rstrip. rewrite <- rev_app_distr, <- E.
  now rewrite rev_involutive.
Qed.

(** Stripping a text that starts with a non-blank part keeps the stripped
    part in front. *)
Lemma strip_app_prefix (a b : str) :
  blank a = false -> exists post, strip (a ++ b) = strip a ++ post.
Proof.
  intros Ha. unfold strip. rewrite lstrip_app_stop by exact Ha.
  destruct (blank b) eqn:Hb.
  - rewrite rstrip_app_blank by exact Hb. exists []. now rewrite app_nil_r.
  - rewrite rstrip_app_nonblank by exact Hb.
    destruct (rstrip_prefix (lstrip a)) as [post E].
    exists (post ++ rstrip b). rewrite E at 1. now rewrite <- app_assoc.
Qed.

Lemma marker_not_blank (l : str) : is_marker l = true -> blank l = false.
Proof.
  unfold is_marker. intros H. destruct (blank l) eqn:E; [|reflexivity].
  apply strip_nil in E. rewrite E in H. discriminate.
Qed.

Lemma blank_app (a b : str) : blank (a ++ b) = blank a && blank b.
Proof. apply forallb_app. Qed.

Lemma blank_join (run : list str) :
  blank (join nl run) = forallb blank run.
Proof.
  induction run as [|x run IH]; [reflexivity|].
  destruct run as [|y run].
  - cbn [join forallb]. now rewrite andb_true_r.
  - rewrite join_cons by discriminate.
    rewrite !blank_app, IH. reflexivity.
Qed.

(** *** The blocks of the splitter *)

(** X1: every block the splitter emits is free of leading and trailing
    whitespace: stripping it again changes nothing. *)
Theorem blocks_are_stripped (text b : str) :
  In b (split_scenarios text) -> strip b = b.
Proof.
  rewrite split_scenarios_groups. intros H.
  apply in_map_iff in H as [run [<- _]].
  apply strip_idem.
Qed.

Lemma blocks_are_stripped_witness :
  In (py "Scenario: A") (split_scenarios (py "  Scenario: A  "))
  /\ strip (py "Scenario: A") = py "Scenario: A".
Proof.
  assert (H : In (py "Scenario: A") (split_scenarios (py "  Scenario: A  ")))
    by (left; reflexivity).
  split; [exact H|].
  exact (@blocks_are_stripped (py "  Scenario: A  ") (py "Scenario: A") H).
Defined.

Lemma marker_block_starts (l : str) (r : list str) :
  is_marker l = true ->
  startswith (close_block (l :: r)) (py "Scenario:") = true.
Proof.
  intros Hm. pose proof (@marker_not_blank l Hm) as Hb.
  unfold is_marker in Hm. apply startswith_spec in Hm as [post Hm].
  apply startswith_spec. unfold close_block.
  destruct r as [|y r].
  - exists post. exact Hm.
  - rewrite join_cons by discriminate.
    destruct (@strip_app_prefix l (nl ++ join nl (y :: r)) Hb) as [post' E].
    rewrite E, Hm. exists (post ++ post'). now rewrite <- app_assoc.
Qed.

(** X2: every block after the first starts with "Scenario:", so only the
    first block can be a preamble; the first block starts with "Scenario:"
    too when the first line of the text is a marker line. *)
Theorem later_blocks_start_with_marker (text : str) :
  Forall (fun b => startswith b (py "Scenario:") = true)
         (tl (split_scenarios text))
  /\ (forall l ls,
        splitlines text = l :: ls -> is_marker l = true ->
        Forall (fun b => startswith b (py "Scenario:") = true)
               (split_scenarios text)).
Proof.
  rewrite split_scenarios_groups.
  assert (T : Forall (fun b => startswith b (py "Scenario:") = true)
                     (tl (map close_block (group_lines (splitlines text))))).
  { pose proof (group_heads (splitlines text)) as H.
    destruct (group_lines (splitlines text)) as [|g gs]; [constructor|].
    cbn [tl map] in *. induction H as [|run runs [l [r [-> Hl]]] _ IH].
    - constructor.
    - cbn [map]. constructor; [now apply marker_block_starts|exact IH]. }
  split; [exact T|].
  intros l ls E Hl.
  pose proof (group_concat (splitlines text)) as Hc.
  pose proof (group_nonempty (splitlines text)) as Hn.
  rewrite E in *.
  destruct (group_lines (l :: ls)) as [|g gs]; [constructor|].
  cbn [map tl] in *. constructor; [|exact T].
  inversion Hn as [|? ? Hg _]; subst.
  destruct g as [|x g]; [congruence|].
  cbn [List.concat app] in Hc. injection Hc as -> _.
  now apply marker_block_starts.
Qed.

Lemma later_blocks_start_with_marker_witness :
  splitlines (py "Scenario: A" ++ nl ++ py "Given x")
  = [py "Scenario: A"; py "Given x"]
  /\ is_marker (py "Scenario: A") = true
  /\ Forall (fun b => startswith b (py "Scenario:") = true)
            (split_scenarios (py "Scenario: A" ++ nl ++ py "Given x")).
Proof.
  assert (E : splitlines (py "Scenario: A" ++ nl ++ py "Given x")
              = [py "Scenario: A"; py "Given x"]) by reflexivity.
  assert (M : is_marker (py "Scenario: A") = true) by reflexivity.
  split; [exact E|]. split; [exact M|].
  exact (proj2 (later_blocks_start_with_marker
                  (py "Scenario: A" ++ nl ++ py "Given x")) _ _ E M).
Defined.

Lemma group_lines_count (l : str) (ls : list str) :
  List.length (group_lines (l :: ls))
  = S (List.length (filter is_marker ls)).
Proof.
  revert l. induction ls as [|l2 ls IH]; intros l; [reflexivity|].
  rewrite group_lines_step. cbn [filter]. specialize (IH l2).
  destruct (is_marker l2).
  - cbn [List.length]. now rewrite IH.
  - destruct (group_lines (l2 :: ls)) as [|g gs]; [discriminate|].
    cbn [List.length] in *. exact IH.
Qed.

(** X3: the number of blocks, which the summary reports as total, is one
    more than the number of marker lines after the first line of the text,
    for every text that is not empty. *)
Theorem block_count (text : str) :
  text <> [] ->
  List.length (split_scenarios text)
  = S (List.length (filter is_marker (tl (splitlines text))))
  /\ total (r_summary (validate_and_select_happy text))
     = S (List.length (filter is_marker (tl (splitlines text)))).
Proof.
  intros Hne.
  assert (E : List.length (split_scenarios text)
              = S (List.length (filter is_marker (tl (splitlines text))))).
  { rewrite split_scenarios_groups, length_map.
    destruct (splitlines text) as [|l ls] eqn:El.
    - now apply splitlines_nil in El.
    - apply group_lines_count. }
  split; exact E.
Qed.

Lemma block_count_witness :
  login_example <> []
  /\ List.length (split_scenarios login_example)
     = S (List.length (filter is_marker (tl (splitlines login_example)))).
Proof.
  assert (H : login_example <> []) by discriminate.
  split; [exact H|].
  exact (proj1 (@block_count login_example H)).
Defined.

Lemma forallb_tl_app (A : Type) (p : A -> bool) (pre : list A) (x : A)
    (rest : list A) :
  forallb p (tl (pre ++ x :: rest)) = true -> forallb p rest = true.
Proof.
  destruct pre as [|y pre]; cbn [app tl]; [auto|].
  rewrite forallb_app. cbn [forallb]. intros H.
  apply andb_true_iff in H as [_ H]. now apply andb_true_iff in H as [_ H].
Qed.

Lemma trimmed_open_run (run kept : list str) :
  trimmed run kept -> open_run run = true -> open_run kept = true.
Proof.
  unfold open_run.
  intros [run' _|pre post l _ _ _|pre mid post first last _ _ _ _] H.
  - reflexivity.
  - reflexivity.
  - apply forallb_tl_app in H. rewrite forallb_app in H.
    apply andb_true_iff in H as [Hmid Hlast]. cbn [forallb] in Hlast.
    apply andb_true_iff in Hlast as [Hlast _].
    cbn [tl]. rewrite forallb_app, Hmid. cbn [forallb].
    now rewrite is_marker_rstrip, Hlast.
Qed.

(** X4: a block of the splitter that is not empty is split into itself
    alone: splitting is idempotent on its own blocks. *)
Theorem resplit_block (text b : str) :
  In b (split_scenarios text) -> b <> [] -> split_scenarios b = [b].
Proof.
  rewrite split_scenarios_groups. intros Hb Hne.
  apply in_map_iff in Hb as [run [<- Hrun]].
  pose proof (proj1 (Forall_forall _ _) (runs_no_break text) _ Hrun) as Hnb.
  pose proof (proj1 (Forall_forall _ _) (group_open_runs _) _ Hrun) as Hop.
  pose proof (trim_run_trimmed run) as Ht.
  pose proof (trimmed_splitlines Ht Hnb) as Hs.
  pose proof (trimmed_open_run Ht Hop) as Hk.
  rewrite close_block_trim in *.
  rewrite split_scenarios_groups, Hs.
  destruct (trim_run run) as [|k ks] eqn:Ek; [now contradiction Hne|].
  rewrite group_open by (discriminate || exact Hk).
  cbn [map]. f_equal.
  rewrite <- Ek. unfold close_block at 1. rewrite <- close_block_trim.
  apply strip_idem.
Qed.

Lemma resplit_block_witness :
  In (py "Scenario: A" ++ nl ++ py "  Given x")
     (split_scenarios (py "Feature: F" ++ nl ++ py "  Scenario: A" ++ nl
                       ++ py "  Given x" ++ nl))
  /\ py "Scenario: A" ++ nl ++ py "  Given x" <> []
  /\ split_scenarios (py "Scenario: A" ++ nl ++ py "  Given x")
     = [py "Scenario: A" ++ nl ++ py "  Given x"].
Proof.
  assert (H : In (py "Scenario: A" ++ nl ++ py "  Given x")
                 (split_scenarios
                    (py "Feature: F" ++ nl ++ py "  Scenario: A" ++ nl
                     ++ py "  Given x" ++ nl)))
    by (right; left; reflexivity).
  assert (N : py "Scenario: A" ++ nl ++ py "  Given x" <> [])
    by discriminate.
  split; [exact H|]. split; [exact N|].
  exact (@resplit_block _ _ H N).
Defined.

Lemma group_first_head (l : str) (ls : list str) :
  exists g gs, group_lines (l :: ls) = (l :: g) :: gs.
Proof.
  destruct ls as [|l2 ls]; [now exists [], []|].
  rewrite group_lines_step. destruct (is_marker l2).
  - now exists [], (group_lines (l2 :: ls)).
  - destruct (group_lines (l2 :: ls)) as [|g gs]; eauto.
Qed.

Lemma nonblank_run_block (run : list str) :
  forallb blank run = false -> close_block run <> [].
Proof.
  intros H E. unfold close_block in E. apply strip_nil in E.
  rewrite blank_join in E. congruence.
Qed.

Lemma stripped_first_line (t : str) (l : str) (ls : list str) :
  splitlines (strip t) = l :: ls -> blank l = false.
Proof.
  assert (H : lstrip (strip t) = strip t).
  { unfold strip at 1. rewrite lstrip_rstrip, lstrip_idem. reflexivity. }
  destruct (strip t) as [|c rest]; [discriminate|].
  assert (Hc : is_space c = false)
    by exact (@dropwhile_head _ is_space (c :: rest) c rest H).
  cbn [splitlines].
  destruct (is_linebreak c) eqn:Eb.
  - apply linebreak_is_space in Eb. congruence.
  - destruct (splitlines rest); intros E; injection E as <- _;
      cbn; now rewrite Hc.
Qed.

(** X5: the text [call_llm] hands on is stripped, and of a stripped text no
    block is empty; without the stripping a leading blank line would be
    emitted as an empty block. *)
Theorem stripped_text_no_empty_block (t : str) :
  Forall (fun b => b <> []) (split_scenarios (strip t))
  /\ split_scenarios (nl ++ py "Scenario: A") = [[]; py "Scenario: A"].
Proof.
  split; [|reflexivity].
  rewrite split_scenarios_groups.
  destruct (splitlines (strip t)) as [|l ls] eqn:El; [constructor|].
  pose proof (stripped_first_line t El) as Hl.
  pose proof (group_heads (l :: ls)) as Hh.
  destruct (group_first_head l ls) as [g [gs E]]. rewrite E in *.
  cbn [map tl] in *. constructor.
  - apply nonblank_run_block. cbn [forallb]. now rewrite Hl.
  - clear E. induction Hh as [|run runs [x [r [-> Hx]]] _ IH]; [constructor|].
    cbn [map]. constructor; [|exact IH].
    apply nonblank_run_block. cbn [forallb].
    now rewrite (marker_not_blank x Hx).
Qed.

(** *** The classifiers *)

Lemma lower_app (a b : str) : lower (a ++ b) = lower a ++ lower b.
Proof. apply map_app. Qed.

Lemma substring_lower (b b' : str) :
  substring b b' -> substring (lower b) (lower b').
Proof.
  intros [pre [post ->]]. exists (lower pre), (lower post).
  now rewrite !lower_app.
Qed.

(** X6: the three classifiers only look for occurrences, so text added
    around a block never takes a verdict back: what is valid, mentions a
    known action or signals success still does inside any longer text. *)
Theorem classifiers_monotone (b b' : str) :
  substring b b' ->
  (is_valid_scenario b = true -> is_valid_scenario b' = true)
  /\ (contains_known_actions b = true -> contains_known_actions b' = true)
  /\ (is_happy_path b = true -> is_happy_path b' = true)
  /\ (happy_condition b = true -> happy_condition b' = true).
Proof.
  intros H. pose proof (@substring_lower _ _ H) as HL.
  assert (V : is_valid_scenario b = true -> is_valid_scenario b' = true).
  { rewrite !is_valid_scenario_spec. intros (G & W & T).
    repeat split; eapply substring_trans; eauto. }
  assert (A : contains_known_actions b = true
              -> contains_known_actions b' = true).
  { rewrite !contains_known_actions_spec.
    intros [K|[K|K]]; [left|right; left|right; right];
      eapply substring_trans; eauto. }
  assert (P : is_happy_path b = true -> is_happy_path b' = true).
  { rewrite !is_happy_path_spec.
    intros [K|[K1 K2]]; [left|right; split];
      eapply substring_trans; eauto. }
  split; [exact V|]. split; [exact A|]. split; [exact P|].
  unfold happy_condition. rewrite !andb_true_iff. intros [Ha Hp]. auto.
Qed.

Lemma classifiers_monotone_witness :
  substring (py "Given When Then") (py "Scenario: Given When Then login")
  /\ is_valid_scenario (py "Scenario: Given When Then login") = true.
Proof.
  assert (H : substring (py "Given When Then")
                        (py "Scenario: Given When Then login"))
    by (now exists (py "Scenario: "), (py " login")).
  split; [exact H|].
  exact (proj1 (@classifiers_monotone _ _ H) eq_refl).
Defined.

Lemma lower_char_idem (c : ascii) : lower_char (lower_char c) = lower_char c.
Proof. destruct c as [[] [] [] [] [] [] [] []]; reflexivity. Qed.

Lemma lower_idem (s : str) : lower (lower s) = lower s.
Proof.
  unfold lower. rewrite map_map. apply map_ext. exact lower_char_idem.
Qed.

Lemma lower_char_not_G (c : ascii) : lower_char c <> chr 71.
Proof. destruct c as [[] [] [] [] [] [] [] []]; vm_compute; discriminate. Qed.

(** X7: the success and action tests ignore case, the validity test does
    not: two texts with the same lower-cased form get the same verdicts of
    [is_happy_path] and [contains_known_actions], a text and its lower-cased
    form in particular, whereas a lower-cased text is never valid. *)
Theorem case_sensitivity (b : str) :
  (forall b', lower b = lower b' ->
              is_happy_path b = is_happy_path b'
              /\ contains_known_actions b = contains_known_actions b')
  /\ is_happy_path (lower b) = is_happy_path b
  /\ contains_known_actions (lower b) = contains_known_actions b
  /\ is_valid_scenario (lower b) = false.
Proof.
  split; [|split; [|split]].
  - intros b' E. unfold is_happy_path, contains_known_actions.
    now rewrite E.
  - unfold is_happy_path. now rewrite lower_idem.
  - unfold contains_known_actions. now rewrite lower_idem.
  - destruct (is_valid_scenario (lower b)) eqn:E; [|reflexivity].
    apply is_valid_scenario_spec in E as [[pre [post E]] _].
    assert (H : In (chr 71) (lower b)).
    { rewrite E. apply in_or_app. right. left. reflexivity. }
    unfold lower in H. apply in_map_iff in H as [c [Hc _]].
    now apply lower_char_not_G in Hc.
Qed.

Lemma case_sensitivity_witness :
  lower (py "LOGIN Success Valid") = lower (py "login success valid")
  /\ is_happy_path (py "LOGIN Success Valid")
     = is_happy_path (py "login success valid").
Proof.
  assert (H : lower (py "LOGIN Success Valid")
              = lower (py "login success valid")) by reflexivity.
  split; [exact H|].
  exact (proj1 (proj1 (case_sensitivity (py "LOGIN Success Valid")) _ H)).
Defined.

(** *** The pipeline on its own blocks *)

(** X8: a happy block fed to the pipeline alone comes back as the one block,
    valid and happy: the summary is total=1, valid=1, happy=1. *)
Theorem happy_block_alone (text b : str) :
  In b (r_happy (validate_and_select_happy text)) ->
  validate_and_select_happy b = mkResult [b] [b] [b] (mkSummary 1 1 1 true).
Proof.
  intros H. apply happy_blocks_valid in H as (Hb & Hv & Hh).
  pose proof (@valid_block_nonempty b Hv) as Hne.
  unfold validate_and_select_happy.
  rewrite (@resplit_block text b Hb Hne).
  cbn [filter]. rewrite Hv. cbn [filter]. rewrite Hh.
  cbn [List.length forallb].
  unfold happy_condition in Hh. apply andb_true_iff in Hh as [Ha _].
  now rewrite Ha.
Qed.

Lemma happy_block_alone_witness :
  In negative_with_given
     (r_happy (validate_and_select_happy negative_with_given))
  /\ validate_and_select_happy negative_with_given
     = mkResult [negative_with_given] [negative_with_given]
                [negative_with_given] (mkSummary 1 1 1 true).
Proof.
  assert (H : In negative_with_given
                 (r_happy (validate_and_select_happy negative_with_given)))
    by (left; reflexivity).
  split; [exact H|].
  exact (@happy_block_alone negative_with_given negative_with_given H).
Defined.

(** *** The feature file and the page *)

Lemma block_join_lines (text b : str) :
  In b (split_scenarios text) -> join nl (splitlines b) = b.
Proof.
  rewrite split_scenarios_groups. intros H.
  apply in_map_iff in H as [run [<- Hrun]].
  pose proof (proj1 (Forall_forall _ _) (runs_no_break text) _ Hrun) as Hnb.
  pose proof (trimmed_splitlines (trim_run_trimmed run) Hnb) as Hs.
  rewrite close_block_trim. now rewrite Hs.
Qed.

Lemma unindent_indent (l : str) :
  unindent (indent_line l) = if blank l then [] else l.
Proof.
  destruct (blank l) eqn:E.
  - now rewrite indent_line_blank.
  - now rewrite indent_line_text.
Qed.

(** X9: rendering a block of the splitter loses only whitespace-only lines:
    taking the two-character indentation off the rendered lines gives the
    block's lines back, whitespace-only lines emptied, and so the block
    itself when it has no whitespace-only line. *)
Theorem unindent_recovers_block (text b : str) :
  In b (split_scenarios text) ->
  map unindent (map indent_line (splitlines b))
  = map (fun l => if blank l then [] else l) (splitlines b)
  /\ (Forall (fun l => l = [] \/ blank l = false) (splitlines b) ->
      join nl (map unindent (map indent_line (splitlines b))) = b).
Proof.
  intros Hb.
  assert (E : map unindent (map indent_line (splitlines b))
              = map (fun l => if blank l then [] else l) (splitlines b)).
  { rewrite map_map. apply map_ext. exact unindent_indent. }
  split; [exact E|].
  intros H. rewrite E. rewrite <- (block_join_lines text b Hb) at 2.
  f_equal. rewrite <- (map_id (splitlines b)) at 2.
  apply map_ext_in. intros l Hl.
  destruct (proj1 (Forall_forall _ _) H l Hl) as [->| ->]; reflexivity.
Qed.

Lemma unindent_recovers_block_witness :
  In (py "Scenario: A" ++ nl ++ nl ++ py "  Given x")
     (split_scenarios (py "Scenario: A" ++ nl ++ nl ++ py "  Given x"))
  /\ Forall (fun l => l = [] \/ blank l = false)
            (splitlines (py "Scenario: A" ++ nl ++ nl ++ py "  Given x"))
  /\ join nl (map unindent
                (map indent_line
                   (splitlines (py "Scenario: A" ++ nl ++ nl
                                ++ py "  Given x"))))
     = py "Scenario: A" ++ nl ++ nl ++ py "  Given x".
Proof.
  assert (H : In (py "Scenario: A" ++ nl ++ nl ++ py "  Given x")
                 (split_scenarios
                    (py "Scenario: A" ++ nl ++ nl ++ py "  Given x")))
    by (left; reflexivity).
  assert (F : Forall (fun l : str => l = [] \/ blank l = false)
                (splitlines (py "Scenario: A" ++ nl ++ nl ++ py "  Given x"))).
  { repeat constructor; (now left) || (now right). }
  split; [exact H|]. split; [exact F|].
  exact (proj2 (@unindent_recovers_block _ _ H) F).
Defined.



(** X11: the handler answers with the input error, and nothing else,
    exactly for requirements that are empty or all whitespace, whatever the
    backend would return. *)
Theorem input_error_iff (generate_content : str -> str -> option str)
    (requirements_text : str) :
  on_generate generate_content requirements_text
  = Some [w_error "Please enter some requirements."]
  <-> blank requirements_text = true.
Proof.
  rewrite <- strip_nil. unfold on_generate.
  destruct (strip requirements_text) as [|c r].
  - tauto.
  - split; [|discriminate].
    destruct (call_llm generate_content requirements_text); discriminate.
Qed.

Lemma listings_app (p q : list widget) :
  listings (p ++ q) = listings p ++ listings q.
Proof. apply flat_map_app. Qed.

Lemma listings_enumerate (title : string) (blocks : list str) (n : nat) :
  listings
    (flat_map (fun '(i, s) => [w_markdown (heading title i); w_code s])
              (enumerate n blocks))
  = blocks.
Proof.
  revert n. induction blocks as [|b blocks IH]; intros n; [reflexivity|].
  cbn [enumerate flat_map]. rewrite listings_app, IH. reflexivity.
Qed.

Lemma listings_numbered (title : string) (blocks : list str) :
  listings (numbered title blocks) = blocks.
Proof. apply listings_enumerate. Qed.

Lemma listings_result_page (g : str) :
  listings (result_page g)
  = g :: r_all (validate_and_select_happy g)
      ++ r_happy (validate_and_select_happy g).
Proof.
  unfold result_page. cbv zeta.
  rewrite !listings_app, listings_numbered.
  destruct (r_happy (validate_and_select_happy g)) as [|h hs].
  - cbn. now rewrite !app_nil_r.
  - rewrite listings_numbered. cbn. now rewrite !app_nil_r.
Qed.

(** X12: for requirements that are not blank the handler fails exactly when
    the backend call does; otherwise the page lists, in this order and
    nothing else, the stripped backend text, every block and every happy
    block, shows the summary of the pipeline on that text, and ends with the
    download of the feature file of the happy blocks, also when there is
    none. *)
Theorem page_after_generation (generate_content : str -> str -> option str)
    (requirements_text : str) :
  blank requirements_text = false ->
  (on_generate generate_content requirements_text = None <->
   call_llm generate_content requirements_text = None)
  /\ (forall page,
        on_generate generate_content requirements_text = Some page ->
        exists gherkin_text,
          call_llm generate_content requirements_text = Some gherkin_text
          /\ listings page
             = gherkin_text
               :: r_all (validate_and_select_happy gherkin_text)
               ++ r_happy (validate_and_select_happy gherkin_text)
          /\ In (w_json (r_summary (validate_and_select_happy gherkin_text)))
                page
          /\ exists before,
               page = before
                      ++ [w_download "Download happy‑path feature file"
                            (feature_content
                               (r_happy
                                  (validate_and_select_happy gherkin_text)))
                            "login_happy.feature" "text/plain"]).
Proof.
  intros Hb. apply strip_blank_false in Hb. unfold on_generate.
  destruct (strip requirements_text) as [|c r]; [congruence|].
  destruct (call_llm generate_content requirements_text) as [g|].
  - split; [split; discriminate|].
    intros page E. injection E as <-. exists g.
    split; [reflexivity|]. split; [apply listings_result_page|]. split.
    + unfold result_page. cbv zeta. apply in_or_app. left.
      cbn [In]. tauto.
    + unfold result_page. cbv zeta. eexists.
      rewrite !app_assoc. reflexivity.
  - split; [tauto|discriminate].
Qed.

Lemma page_after_generation_witness :
  blank (py "login") = false
  /\ exists gherkin_text,
       call_llm (fun _ _ => Some (py " Scenario: A ")) (py "login")
       = Some gherkin_text
       /\ listings (result_page (py "Scenario: A"))
          = gherkin_text
            :: r_all (validate_and_select_happy gherkin_text)
            ++ r_happy (validate_and_select_happy gherkin_text)
       /\ In (w_json (r_summary (validate_and_select_happy gherkin_text)))
             (result_page (py "Scenario: A"))
       /\ exists before,
            result_page (py "Scenario: A")
            = before
              ++ [w_download "Download happy‑path feature file"
                    (feature_content
                       (r_happy (validate_and_select_happy gherkin_text)))
                    "login_happy.feature" "text/plain"].
Proof.
  assert (H : blank (py "login") = false) by reflexivity.
  split; [exact H|].
  exact (proj2 (@page_after_generation
                  (fun _ _ => Some (py " Scenario: A ")) (py "login") H)
               (result_page (py "Scenario: A")) eq_refl).
Defined.

Lemma markdowns_app (p q : list widget) :
  markdowns (p ++ q) = markdowns p ++ markdowns q.
Proof. apply flat_map_app. Qed.

Lemma warnings_app (p q : list widget) :
  warnings (p ++ q) = warnings p ++ warnings q.
Proof. apply flat_map_app. Qed.

Lemma markdowns_enumerate (title : string) (blocks : list str) (n : nat) :
  markdowns
    (flat_map (fun '(i, s) => [w_markdown (heading title i); w_code s])
              (enumerate n blocks))
  = map (heading title) (seq n (List.length blocks)).
Proof.
  revert n. induction blocks as [|b blocks IH]; intros n; [reflexivity|].
  cbn [enumerate flat_map List.length seq map].
  rewrite markdowns_app, IH. reflexivity.
Qed.

Lemma warnings_enumerate (title : string) (blocks : list str) (n : nat) :
  warnings
    (flat_map (fun '(i, s) => [w_markdown (heading title i); w_code s])
              (enumerate n blocks))
  = [].
Proof.
  revert n. induction blocks as [|b blocks IH]; intros n; [reflexivity|].
  cbn [enumerate flat_map]. rewrite warnings_app, IH. reflexivity.
Qed.

(** X13: the headings of the page number the blocks and the happy blocks
    from 1 upwards without gaps, as many as the summary counts, and the
    warning that nothing matched is shown exactly when no happy block was
    selected. *)
Theorem page_headings_and_warning (gherkin_text : str) :
  markdowns (result_page gherkin_text)
  = map (heading "Scenario")
        (seq 1 (total (r_summary (validate_and_select_happy gherkin_text))))
    ++ map (heading "Happy path")
           (seq 1 (happy_count
                     (r_summary (validate_and_select_happy gherkin_text))))
  /\ (warnings (result_page gherkin_text)
      = ["No happy‑path scenarios matched the selection rules."%string]
      <-> r_happy (validate_and_select_happy gherkin_text) = [])
  /\ (warnings (result_page gherkin_text) = []
      <-> r_happy (validate_and_select_happy gherkin_text) <> []).
Proof.
  unfold result_page, numbered. cbv zeta.
  rewrite !markdowns_app, !warnings_app.
  rewrite markdowns_enumerate, warnings_enumerate.
  change (total (r_summary (validate_and_select_happy gherkin_text)))
    with (List.length (r_all (validate_and_select_happy gherkin_text))).
  change (happy_count (r_summary (validate_and_select_happy gherkin_text)))
    with (List.length (r_happy (validate_and_select_happy gherkin_text))).
  destruct (r_happy (validate_and_select_happy gherkin_text)) as [|h hs].
  - cbn. rewrite !app_nil_r. repeat split; congruence.
  - rewrite markdowns_enumerate, warnings_enumerate. cbn.
    rewrite !app_nil_r. repeat split; congruence.
Qed.

(** X14: a line is a marker line whatever whitespace stands before and after
    it: indentation does not hide a "Scenario:" line from the splitter. *)
Theorem marker_ignores_indentation (pre l post : str) :
  blank pre = true -> blank post = true ->
  strip (pre ++ l ++ post) = strip l
  /\ is_marker (pre ++ l ++ post) = is_marker l.
Proof.
  intros Hpre Hpost.
  assert (E : strip (pre ++ l ++ post) = strip l).
  { unfold strip at 1. rewrite lstrip_app_blank by exact Hpre.
    rewrite <- lstrip_rstrip, rstrip_app_blank by exact Hpost.
    apply lstrip_rstrip. }
  split; [exact E|]. unfold is_marker. now rewrite E.
Qed.

Lemma marker_ignores_indentation_witness :
  blank (py "    ") = true /\ blank (py "  ") = true
  /\ is_marker (py "    " ++ py "Scenario: A" ++ py "  ")
     = is_marker (py "Scenario: A").
Proof.
  assert (H1 : blank (py "    ") = true) by reflexivity.
  assert (H2 : blank (py "  ") = true) by reflexivity.
  split; [exact H1|]. split; [exact H2|].
  exact (proj2 (@marker_ignores_indentation _ (py "Scenario: A") _ H1 H2)).
Defined.
